(** * A shallow embedding of the tetris package

    The Python modules [tetromino], [board], [profiles], [scores] and
    [game] are embedded one Rocq module each.  Python integers are
    [Z], [None]-able values are [option], dictionaries are [gmap]s and
    every method that mutates [self] is a computation in a small
    state-and-exception monad, so that a raised exception keeps the
    mutations made before it (Python does not roll back). *)

From Stdlib Require Import ZArith Lia Sorted Permutation.
From stdpp Require Import gmap strings list.

Local Open Scope Z_scope.

(** ** Python semantics shared by all modules *)

Module Py.

Inductive exn : Type :=
| IndexError
| ZeroDivisionError
| StopIteration
| RuntimeError (msg : string)
| ValueError (msg : string).

Inductive result (A : Type) : Type :=
| Ok (a : A)
| Raise (e : exn).
Arguments Ok {A} a.
Arguments Raise {A} e.

(** A method of an object whose state has type [S]. *)
Definition M (S A : Type) : Type := S -> result A * S.

Definition ret {S A} (a : A) : M S A := fun s => (Ok a, s).

Definition raise {S A} (e : exn) : M S A := fun s => (Raise e, s).

Definition bind {S A B} (m : M S A) (k : A -> M S B) : M S B :=
  fun s =>
    match m s with
    | (Ok a, s') => k a s'
    | (Raise e, s') => (Raise e, s')
    end.

Definition get {S} : M S S := fun s => (Ok s, s).

Definition modify {S} (f : S -> S) : M S unit := fun s => (Ok tt, f s).

(** An expression that only reads: its value or its exception. *)
Definition lift {S A} (r : result A) : M S A := fun s => (r, s).

(** Run a method of an attribute (read with [proj], written back with
    [upd]) inside a method of its owner. *)
Definition zoom {S T A} (proj : S -> T) (upd : T -> S -> S) (m : M T A) : M S A :=
  fun s => let '(r, t') := m (proj s) in (r, upd t' s).

(** [bind] for expressions without side effects. *)
Definition and_then {A B} (r : result A) (k : A -> result B) : result B :=
  match r with
  | Ok a => k a
  | Raise e => Raise e
  end.

(** [for x in l: body(x)] *)
Fixpoint for_each {S A} (l : list A) (body : A -> M S unit) : M S unit :=
  match l with
  | [] => ret tt
  | x :: l' => bind (body x) (fun _ => for_each l' body)
  end.

(** [range(n)]: empty when [n <= 0]. *)
Definition range (n : Z) : list Z := map Z.of_nat (seq 0 (Z.to_nat n)).

(** The position a list index denotes: negative indices count from the
    end, anything outside the list is an [IndexError]. *)
Definition index {A} (l : list A) (i : Z) : result nat :=
  let n := Z.of_nat (length l) in
  let j := if i <? 0 then i + n else i in
  if (0 <=? j) && (j <? n) then Ok (Z.to_nat j) else Raise IndexError.

(** [l[i]] *)
Definition getitem {A} (l : list A) (i : Z) : result A :=
  and_then (index l i) (fun k =>
    match l !! k with
    | Some x => Ok x
    | None => Raise IndexError
    end).

(** [l[i] = v] *)
Definition setitem {A} (l : list A) (i : Z) (v : A) : result (list A) :=
  and_then (index l i) (fun k => Ok (<[k := v]> l)).

(** [l.pop(0)] *)
Definition pop0 {A} : M (list A) A :=
  fun l =>
    match l with
    | [] => (Raise IndexError, l)
    | x :: l' => (Ok x, l')
    end.

(** [for x in l: acc = f(acc, x)] where [f] may raise and [acc] is local. *)
Fixpoint fold_result {A B} (f : B -> A -> result B) (l : list A) (acc : B) : result B :=
  match l with
  | [] => Ok acc
  | x :: l' => and_then (f acc x) (fold_result f l')
  end.

(** [l[:stop]]: a negative [stop] counts from the end. *)
Definition slice_to {A} (l : list A) (stop : Z) : list A :=
  let n := Z.of_nat (length l) in
  let k := if stop <? 0 then Z.max 0 (stop + n) else Z.min stop n in
  take (Z.to_nat k) l.

(** [l.sort(key=key, reverse=True)] for integer keys.  The sort is
    stable also when reversed, so its result is the one permutation of
    [l] in non-increasing key order that keeps elements of equal key in
    their order in [l]; inserting the elements from the right, each
    before the first element whose key is not larger, computes it. *)
Fixpoint insert_reverse {A} (key : A -> Z) (x : A) (sorted : list A) : list A :=
  match sorted with
  | [] => [x]
  | y :: rest =>
      if key x <? key y then y :: insert_reverse key x rest else x :: y :: rest
  end.

Definition sort_reverse {A} (key : A -> Z) (l : list A) : list A :=
  foldr (insert_reverse key) [] l.

End Py.

Import Py.

Notation "'do' x <- m ; k" := (bind m (fun x => k))
  (at level 10, x name, m at level 100, k at level 200).
Notation "'do' '_' <- m ; k" := (bind m (fun _ => k))
  (at level 10, m at level 100, k at level 200).
Notation "'let?' x := r 'in' k" := (and_then r (fun x => k))
  (at level 10, x name, r at level 100, k at level 200).

(** [Coordinate = Tuple[int, int]] *)
Abbreviation Coordinate := (Z * Z)%type (only parsing).

(** ** tetromino.py *)

Module tetromino.

Record Tetromino : Type := mkTetromino {
  name : string;
  rotations : list (list Coordinate);
  color : string
}.

Record TetrominoState : Type := mkTetrominoState {
  tetromino : Tetromino;
  rotation_index : Z
}.

(** [Tetromino.rotated]: Python's [%] with a positive right operand is
    [Z.modulo]; with [len(self.rotations) = 0] it raises. *)
Definition rotated (self : Tetromino) (rotation_index : Z) : result TetrominoState :=
  let n := Z.of_nat (length (rotations self)) in
  if n =? 0 then Raise ZeroDivisionError
  else Ok (mkTetrominoState self (rotation_index mod n)).

(** The [TetrominoState.blocks] property. *)
Definition blocks (self : TetrominoState) : result (list Coordinate) :=
  getitem (rotations (tetromino self)) (rotation_index self).

Definition I : Tetromino :=
  mkTetromino "I"
    [ [(-2, 0); (-1, 0); (0, 0); (1, 0)];
      [(0, -1); (0, 0); (0, 1); (0, 2)] ]
    "cyan".

Definition O : Tetromino :=
  mkTetromino "O"
    [ [(0, 0); (1, 0); (0, 1); (1, 1)] ]
    "yellow".

Definition T : Tetromino :=
  mkTetromino "T"
    [ [(-1, 0); (0, 0); (1, 0); (0, 1)];
      [(0, -1); (0, 0); (1, 0); (0, 1)];
      [(0, -1); (-1, 0); (0, 0); (1, 0)];
      [(0, -1); (-1, 0); (0, 0); (0, 1)] ]
    "purple".

Definition S : Tetromino :=
  mkTetromino "S"
    [ [(0, 0); (1, 0); (-1, 1); (0, 1)];
      [(0, -1); (0, 0); (1, 0); (1, 1)] ]
    "green".

Definition Z : Tetromino :=
  mkTetromino "Z"
    [ [(-1, 0); (0, 0); (0, 1); (1, 1)];
      [(1, -1); (0, 0); (1, 0); (0, 1)] ]
    "red".

Definition J : Tetromino :=
  mkTetromino "J"
    [ [(-1, 0); (0, 0); (1, 0); (-1, 1)];
      [(0, -1); (0, 0); (0, 1); (1, -1)];
      [(1, -1); (-1, 0); (0, 0); (1, 0)];
      [(-1, 1); (0, -1); (0, 0); (0, 1)] ]
    "blue".

Definition L : Tetromino :=
  mkTetromino "L"
    [ [(-1, 0); (0, 0); (1, 0); (1, 1)];
      [(0, -1); (0, 0); (0, 1); (1, 1)];
      [(-1, -1); (-1, 0); (0, 0); (1, 0)];
      [(-1, -1); (0, -1); (0, 0); (0, 1)] ]
    "orange".

Definition ALL_TETROMINOES : list Tetromino := [I; O; T; S; Z; J; L].

End tetromino.

(** ** board.py *)

(** [Cell = Optional[str]] *)
Abbreviation Cell := (option string) (only parsing).

Module board.

Record Board : Type := mkBoard {
  width : Z;
  height : Z;
  grid : list (list Cell)
}.

Definition set_grid (g : list (list Cell)) (self : Board) : Board :=
  mkBoard (width self) (height self) g.

(** [Board(width, height)] followed by [__post_init__]. *)
Definition new (width height : Z) : Board :=
  mkBoard width height (replicate (Z.to_nat height) (replicate (Z.to_nat width) None)).

(** [self.grid[y][x] = value]: the row is fetched, then updated in
    place; rows are never shared between two positions of the grid. *)
Definition set_cell (x y : Z) (value : Cell) : M Board unit :=
  do self <- get;
  do row <- lift (getitem (grid self) y);
  do row' <- lift (setitem row x value);
  do g' <- lift (setitem (grid self) y row');
  modify (set_grid g').

Definition reset : M Board unit :=
  do self <- get;
  for_each (range (height self)) (fun y =>
    for_each (range (width self)) (fun x =>
      set_cell x y None)).

Definition in_bounds (self : Board) (x y : Z) : bool :=
  (0 <=? x) && (x <? width self) && ((0 <=? y) && (y <? height self)).

Definition is_not_None (c : Cell) : bool :=
  match c with
  | Some _ => true
  | None => false
  end.

Fixpoint can_place (self : Board) (blocks : list Coordinate) : result bool :=
  match blocks with
  | [] => Ok true
  | (x, y) :: rest =>
      if (x <? 0) || (x >=? width self) then Ok false
      else if y >=? height self then Ok false
      else if y >=? 0 then
        let? row := getitem (grid self) y in
        let? cell := getitem row x in
        if is_not_None cell then Ok false else can_place self rest
      else can_place self rest
  end.

Definition lock_piece (blocks : list Coordinate) (value : string) : M Board unit :=
  for_each blocks (fun '(x, y) =>
    if y <? 0 then ret tt
    else set_cell x y (Some value)).

(** [any(cell is None for cell in row)] *)
Definition any_None (row : list Cell) : bool :=
  existsb (fun cell => negb (is_not_None cell)) row.

Definition clear_full_lines : M Board Z :=
  do self <- get;
  let remaining := List.filter any_None (grid self) in
  let cleared := height self - Z.of_nat (length remaining) in
  do _ <- (if cleared =? 0 then ret tt
           else modify (set_grid
                  (replicate (Z.to_nat cleared)
                     (replicate (Z.to_nat (width self)) None) ++ remaining)));
  ret cleared.

Definition project_piece (self : Board) (state : tetromino.TetrominoState)
    (origin : Coordinate) : result (list Coordinate) :=
  let? bl := tetromino.blocks state in
  Ok (map (fun '(dx, dy) => (fst origin + dx, snd origin + dy)) bl).

End board.

(** ** profiles.py *)

Module profiles.

Record Profile : Type := mkProfile {
  name : string;
  created_at : string;
  last_played : option string;
  games_played : Z;
  best_score : Z
}.

(** The JSON object kept for a profile under ["profiles"], with the
    five keys [to_dict] writes. *)
Record ProfileDict : Type := mkProfileDict {
  key_name : string;
  key_created_at : string;
  key_last_played : option string;
  key_games_played : Z;
  key_best_score : Z
}.

Definition to_dict (self : Profile) : ProfileDict :=
  mkProfileDict (name self) (created_at self) (last_played self)
    (games_played self) (best_score self).

Definition from_dict (data : ProfileDict) : Profile :=
  mkProfile (key_name data) (key_created_at data) (key_last_played data)
    (key_games_played data) (key_best_score data).

(** One element of the ["scores"] array. *)
Record ScoreEntry : Type := mkScoreEntry {
  profile : string;
  score : Z;
  lines : Z;
  played_at : option string
}.

(** The document [self._data]; the key ["scores"] may be missing
    ([setdefault] and [get] are used on it). *)
Record Data : Type := mkData {
  active_profile : option string;
  profiles : gmap string ProfileDict;
  scores : option (list ScoreEntry)
}.

(** [data_file] stands for the content of the file at that path:
    [None] while the file does not exist, the document last written by
    [save] otherwise. *)
Record ProfileManager : Type := mkProfileManager {
  _data : Data;
  data_file : option Data
}.

Definition set_data (f : Data -> Data) (self : ProfileManager) : ProfileManager :=
  mkProfileManager (f (_data self)) (data_file self).

Definition _load (file : option Data) : Data :=
  match file with
  | None => mkData None ∅ (Some [])
  | Some document => document
  end.

(** [ProfileManager(data_file)] *)
Definition new (file : option Data) : ProfileManager :=
  mkProfileManager (_load file) file.

Definition save : M ProfileManager unit :=
  modify (fun self => mkProfileManager (_data self) (Some (_data self))).

(** A stored profile object has its five keys, hence is truthy. *)
Definition get_profile (self : ProfileManager) (name : string) : option Profile :=
  match profiles (_data self) !! name with
  | Some profile_data => Some (from_dict profile_data)
  | None => None
  end.

(** [now] is the value [_now()] returns during the call. *)
Definition create_profile (name : string) (now : string) : M ProfileManager Profile :=
  do self <- get;
  if bool_decide (is_Some (profiles (_data self) !! name))
  then raise (ValueError ("Le profil '" +:+ name +:+ "' existe déjà"))
  else
    let profile := mkProfile name now None 0 0 in
    do _ <- modify (set_data (fun d =>
              mkData (active_profile d) (<[name := to_dict profile]> (profiles d)) (scores d)));
    do _ <- modify (set_data (fun d => mkData (Some name) (profiles d) (scores d)));
    do _ <- save;
    ret profile.

Definition set_active_profile (name : string) : M ProfileManager Profile :=
  do self <- get;
  match get_profile self name with
  | None => raise (ValueError ("Profil inconnu: " +:+ name))
  | Some profile =>
      do _ <- modify (set_data (fun d => mkData (Some name) (profiles d) (scores d)));
      do _ <- save;
      ret profile
  end.

Definition record_game (profile_name : string) (score lines : Z) (now : string)
  : M ProfileManager unit :=
  do self <- get;
  match get_profile self profile_name with
  | None => raise (ValueError ("Profil inconnu: " +:+ profile_name))
  | Some profile =>
      let games_played' := games_played profile + 1 in
      let last_played' := Some now in
      let best_score' := if score >? best_score profile then score else best_score profile in
      let profile' :=
        mkProfile (name profile) (created_at profile) last_played' games_played' best_score' in
      do _ <- modify (set_data (fun d =>
                mkData (active_profile d)
                  (<[profile_name := to_dict profile']> (profiles d)) (scores d)));
      do _ <- modify (set_data (fun d =>
                mkData (active_profile d) (profiles d)
                  (Some (default [] (scores d)
                         ++ [mkScoreEntry profile_name score lines (last_played profile')]))));
      save
  end.

Definition get_active_profile (self : ProfileManager) : option Profile :=
  match active_profile (_data self) with
  | None => None
  | Some active_name =>
      if bool_decide (active_name = "") then None
      else get_profile self active_name
  end.

(** The sort works on a copy of the stored list. *)
Definition top_scores (self : ProfileManager) (limit : Z) : list ScoreEntry :=
  slice_to (sort_reverse score (default [] (scores (_data self)))) limit.

End profiles.

(** ** scores.py *)

Module scores.

Record ScoreSnapshot : Type := mkScoreSnapshot {
  snapshot_score : Z;
  snapshot_lines : Z
}.

Record ScoreManager : Type := mkScoreManager {
  profile_manager : profiles.ProfileManager;
  score : Z;
  total_lines : Z;
  combo_streak : Z;
  active_profile : option string
}.

Definition line_scores : gmap Z Z := <[1 := 100]> (<[2 := 300]> (<[3 := 500]> (<[4 := 800]> ∅))).
Definition combo_bonus : Z := 50.
Definition soft_drop_bonus : Z := 1.
Definition hard_drop_bonus : Z := 2.

Definition set_score (v : Z) (self : ScoreManager) : ScoreManager :=
  mkScoreManager (profile_manager self) v (total_lines self) (combo_streak self)
    (active_profile self).

Definition set_total_lines (v : Z) (self : ScoreManager) : ScoreManager :=
  mkScoreManager (profile_manager self) (score self) v (combo_streak self)
    (active_profile self).

Definition set_combo_streak (v : Z) (self : ScoreManager) : ScoreManager :=
  mkScoreManager (profile_manager self) (score self) (total_lines self) v
    (active_profile self).

Definition set_active_profile (v : option string) (self : ScoreManager) : ScoreManager :=
  mkScoreManager (profile_manager self) (score self) (total_lines self)
    (combo_streak self) v.

Definition set_profile_manager (v : profiles.ProfileManager) (self : ScoreManager)
  : ScoreManager :=
  mkScoreManager v (score self) (total_lines self) (combo_streak self)
    (active_profile self).

Definition reset : M ScoreManager unit :=
  do _ <- modify (set_score 0);
  do _ <- modify (set_total_lines 0);
  do _ <- modify (set_combo_streak 0);
  modify (set_active_profile None).

(** [ScoreManager(profile_manager)] *)
Definition new (profile_manager : profiles.ProfileManager) : ScoreManager :=
  mkScoreManager profile_manager 0 0 0 None.

Definition attach_profile (name : string) : M ScoreManager unit :=
  modify (set_active_profile (Some name)).

Definition add_soft_drop (cells : Z) : M ScoreManager unit :=
  if cells <=? 0 then ret tt
  else
    do self <- get;
    modify (set_score (score self + cells * soft_drop_bonus)).

Definition add_hard_drop (cells : Z) : M ScoreManager unit :=
  if cells <=? 0 then ret tt
  else
    do self <- get;
    modify (set_score (score self + cells * hard_drop_bonus)).

Definition record_line_clear (lines : Z) : M ScoreManager Z :=
  if lines <=? 0 then
    do _ <- modify (set_combo_streak 0);
    ret 0
  else
    do _ <- modify (fun self => set_combo_streak (combo_streak self + 1) self);
    do _ <- modify (fun self => set_total_lines (total_lines self + lines) self);
    let base := default (lines * 100) (line_scores !! lines) in
    do self <- get;
    let combo_points := (combo_streak self - 1) * combo_bonus in
    let gained := base + combo_points in
    do _ <- modify (set_score (score self + gained));
    ret gained.

(** Truth value of an [Optional[str]]. *)
Definition truthy (s : option string) : bool :=
  match s with
  | None => false
  | Some s => negb (bool_decide (s = ""))
  end.

Definition finalize (now : string) : M ScoreManager ScoreSnapshot :=
  do self <- get;
  match active_profile self with
  | Some name =>
      if truthy (Some name) then
        let snapshot := mkScoreSnapshot (score self) (total_lines self) in
        do _ <- zoom profile_manager set_profile_manager
                  (profiles.record_game name (snapshot_score snapshot)
                     (snapshot_lines snapshot) now);
        ret snapshot
      else raise (RuntimeError "Aucun profil actif pour enregistrer le score")
  | None => raise (RuntimeError "Aucun profil actif pour enregistrer le score")
  end.

End scores.

(** ** game.py *)

Module game.

Record ActivePiece : Type := mkActivePiece {
  state : tetromino.TetrominoState;
  origin : Coordinate
}.

(** The cells of a rotation state put at an origin. *)
Definition at_origin (origin : Coordinate) (offsets : list Coordinate) : list Coordinate :=
  map (fun '(dx, dy) => (fst origin + dx, snd origin + dy)) offsets.

(** [ActivePiece.blocks] *)
Definition blocks (self : ActivePiece) : result (list Coordinate) :=
  let? offsets := tetromino.blocks (state self) in
  Ok (at_origin (origin self) offsets).

(** [random.Random]: the generator is an oracle fixing, for each call
    of [shuffle], the order it leaves the list in, and the number of
    calls made so far.  Nothing is assumed of the oracle. *)
Record Random : Type := mkRandom {
  oracle : nat -> list tetromino.Tetromino -> list tetromino.Tetromino;
  calls : nat
}.

Record Game : Type := mkGame {
  board : board.Board;
  score_manager : scores.ScoreManager;
  _piece_sequence : option (list tetromino.Tetromino);
  _rng : Random;
  _bag : list tetromino.Tetromino;
  active : option ActivePiece;
  game_over : bool
}.

Definition set_board (v : board.Board) (self : Game) : Game :=
  mkGame v (score_manager self) (_piece_sequence self) (_rng self) (_bag self)
    (active self) (game_over self).

Definition set_score_manager (v : scores.ScoreManager) (self : Game) : Game :=
  mkGame (board self) v (_piece_sequence self) (_rng self) (_bag self)
    (active self) (game_over self).

Definition set_piece_sequence (v : option (list tetromino.Tetromino)) (self : Game) : Game :=
  mkGame (board self) (score_manager self) v (_rng self) (_bag self)
    (active self) (game_over self).

Definition set_rng (v : Random) (self : Game) : Game :=
  mkGame (board self) (score_manager self) (_piece_sequence self) v (_bag self)
    (active self) (game_over self).

Definition set_bag (v : list tetromino.Tetromino) (self : Game) : Game :=
  mkGame (board self) (score_manager self) (_piece_sequence self) (_rng self) v
    (active self) (game_over self).

Definition set_active (v : option ActivePiece) (self : Game) : Game :=
  mkGame (board self) (score_manager self) (_piece_sequence self) (_rng self)
    (_bag self) v (game_over self).

Definition set_game_over (v : bool) (self : Game) : Game :=
  mkGame (board self) (score_manager self) (_piece_sequence self) (_rng self)
    (_bag self) (active self) v.

(** [Game(board, score_manager, piece_sequence, rng)]: an empty
    [piece_sequence] is falsy and leaves the game on the random bag. *)
Definition new (board : board.Board) (score_manager : scores.ScoreManager)
    (piece_sequence : option (list tetromino.Tetromino)) (rng : Random) : Game :=
  mkGame board score_manager
    (match piece_sequence with
     | Some (p :: ps) => Some (p :: ps)
     | _ => None
     end)
    rng [] None false.

(** [try: m except exc: handler], for the exceptions [handles] selects. *)
Definition try_except {S A} (m : M S A) (handles : exn -> bool) (handler : M S A) : M S A :=
  fun s =>
    match m s with
    | (Raise e, s') => if handles e then handler s' else (Raise e, s')
    | (Ok a, s') => (Ok a, s')
    end.

Definition is_StopIteration (e : exn) : bool :=
  match e with
  | StopIteration => true
  | _ => false
  end.

Definition is_RuntimeError (e : exn) : bool :=
  match e with
  | RuntimeError _ => true
  | _ => false
  end.

Definition _draw_from_sequence : M Game tetromino.Tetromino :=
  do self <- get;
  match _piece_sequence self with
  | None => raise (RuntimeError "No predefined sequence configured")
  | Some [] => raise StopIteration
  | Some (first :: rest) =>
      do _ <- modify (set_piece_sequence (Some rest));
      ret first
  end.

Definition _draw_from_bag : M Game tetromino.Tetromino :=
  do self <- get;
  do _ <- (match _bag self with
           | [] =>
               do _ <- modify (set_bag tetromino.ALL_TETROMINOES);
               modify (fun self =>
                 let rng := _rng self in
                 set_rng (mkRandom (oracle rng) (Datatypes.S (calls rng)))
                   (set_bag (oracle rng (calls rng) (_bag self)) self))
           | _ :: _ => ret tt
           end);
  zoom _bag set_bag pop0.

Definition _next_tetromino : M Game tetromino.Tetromino :=
  do self <- get;
  match _piece_sequence self with
  | Some _ => _draw_from_sequence
  | None => _draw_from_bag
  end.

Definition _spawn_next_piece : M Game unit :=
  do drawn <- try_except (do tetromino <- _next_tetromino; ret (Some tetromino))
                is_StopIteration (ret None);
  match drawn with
  | None =>
      do _ <- modify (set_game_over true);
      modify (set_active None)
  | Some tetromino =>
      do state <- lift (tetromino.rotated tetromino 0);
      do self <- get;
      let origin := (board.width (board self) / 2, 0) in
      let active := mkActivePiece state origin in
      do cells <- lift (blocks active);
      do placeable <- lift (board.can_place (board self) cells);
      if negb placeable then
        do _ <- modify (set_game_over true);
        modify (set_active None)
      else modify (set_active (Some active))
  end.

Definition start (profile_name : option string) : M Game unit :=
  do _ <- zoom board set_board board.reset;
  do _ <- zoom score_manager set_score_manager scores.reset;
  do _ <- (match profile_name with
           | Some name =>
               if scores.truthy (Some name)
               then zoom score_manager set_score_manager (scores.attach_profile name)
               else ret tt
           | None => ret tt
           end);
  do _ <- modify (set_bag []);
  do _ <- modify (set_game_over false);
  _spawn_next_piece.

Definition move (dx dy : Z) : M Game bool :=
  do self <- get;
  match active self with
  | None => ret false
  | Some piece =>
      if game_over self then ret false
      else
        let new_origin := (fst (origin piece) + dx, snd (origin piece) + dy) in
        do offsets <- lift (tetromino.blocks (state piece));
        let new_blocks := at_origin new_origin offsets in
        do placeable <- lift (board.can_place (board self) new_blocks);
        if negb placeable then ret false
        else
          do _ <- (if dy >? 0
                   then zoom score_manager set_score_manager (scores.add_soft_drop 1)
                   else ret tt);
          do _ <- modify (set_active (Some (mkActivePiece (state piece) new_origin)));
          ret true
  end.

Definition move_left : M Game bool := move (-1) 0.
Definition move_right : M Game bool := move 1 0.
Definition soft_drop : M Game bool := move 0 1.

Definition rotate (clockwise : bool) : M Game bool :=
  do self <- get;
  match active self with
  | None => ret false
  | Some piece =>
      if game_over self then ret false
      else
        let delta := if clockwise then 1 else -1 in
        do new_state <- lift (tetromino.rotated (tetromino.tetromino (state piece))
                                (tetromino.rotation_index (state piece) + delta));
        do offsets <- lift (tetromino.blocks new_state);
        let new_blocks := at_origin (origin piece) offsets in
        do placeable <- lift (board.can_place (board self) new_blocks);
        if negb placeable then ret false
        else
          do _ <- modify (set_active (Some (mkActivePiece new_state (origin piece))));
          ret true
  end.

Definition lock_piece : M Game unit :=
  do self <- get;
  match active self with
  | None => ret tt
  | Some piece =>
      do cells <- lift (blocks piece);
      do _ <- zoom board set_board
                (board.lock_piece cells (tetromino.name (tetromino.tetromino (state piece))));
      do lines <- zoom board set_board board.clear_full_lines;
      do _ <- zoom score_manager set_score_manager (scores.record_line_clear lines);
      do _ <- modify (set_active None);
      _spawn_next_piece
  end.

(** [while self.move(0, 1): distance += 1], run for at most [fuel]
    calls of [move]; [None] when the fuel does not suffice. *)
Fixpoint hard_drop_loop (fuel : nat) (distance : Z) (self : Game)
  : option (result Z * Game) :=
  match fuel with
  | 0%nat => None
  | Datatypes.S fuel' =>
      match move 0 1 self with
      | (Ok true, self') => hard_drop_loop fuel' (distance + 1) self'
      | (Ok false, self') => Some (Ok distance, self')
      | (Raise e, self') => Some (Raise e, self')
      end
  end.

Definition hard_drop (fuel : nat) (self : Game) : option (result unit * Game) :=
  match active self with
  | None => Some (Ok tt, self)
  | Some _ =>
      if game_over self then Some (Ok tt, self)
      else
        match hard_drop_loop fuel 0 self with
        | None => None
        | Some (Raise e, self') => Some (Raise e, self')
        | Some (Ok distance, self') =>
            Some ((do _ <- zoom score_manager set_score_manager
                             (scores.add_hard_drop distance);
                   lock_piece) self')
        end
  end.

Definition tick : M Game unit :=
  do self <- get;
  match active self with
  | None => ret tt
  | Some _ =>
      if game_over self then ret tt
      else
        do moved <- move 0 1;
        if negb moved then lock_piece else ret tt
  end.

Definition finalize (now : string) : M Game unit :=
  do self <- get;
  if game_over self || negb (bool_decide (is_Some (active self))) then
    try_except
      (do _ <- zoom score_manager set_score_manager (scores.finalize now); ret tt)
      is_RuntimeError (ret tt)
  else ret tt.

(** One step of the overlay loop of [current_board], on the copy of the
    grid. *)
Definition overlay (self : Game) (name : string) (grid : list (list Cell))
    (cell : Coordinate) : result (list (list Cell)) :=
  let '(x, y) := cell in
  if (0 <=? y) && (y <? board.height (board self))
     && ((0 <=? x) && (x <? board.width (board self)))
  then
    let? row := getitem grid y in
    let? row' := setitem row x (Some name) in
    setitem grid y row'
  else Ok grid.

Definition current_board (self : Game) : result (list (list Cell)) :=
  let grid := board.grid (board self) in
  match active self with
  | None => Ok grid
  | Some piece =>
      let? cells := blocks piece in
      fold_result (overlay self (tetromino.name (tetromino.tetromino (state piece))))
        cells grid
  end.

End game.

(** ** Vocabulary of the properties *)

(** The cell offsets the catalog returns for a shape and a rotation
    index: [shape.rotated(idx).blocks]. *)
Definition rotation_blocks (shape : tetromino.Tetromino) (idx : Z) : result (list Coordinate) :=
  let? st := tetromino.rotated shape idx in
  tetromino.blocks st.

Definition state_count (shape : tetromino.Tetromino) : Z :=
  Z.of_nat (length (tetromino.rotations shape)).

(** A row is full when none of its cells is empty. *)
Definition row_full (row : list Cell) : Prop := Forall (fun cell => cell <> None) row.

(** [cleared_rows rows kept n]: [kept] is [rows] without its full rows,
    in the same order, and [n] rows were left out. *)
Inductive cleared_rows : list (list Cell) -> list (list Cell) -> nat -> Prop :=
| cleared_nil : cleared_rows [] [] 0
| cleared_drop row rows kept n :
    row_full row -> cleared_rows rows kept n ->
    cleared_rows (row :: rows) kept (Datatypes.S n)
| cleared_keep row rows kept n :
    ~ row_full row -> cleared_rows rows kept n ->
    cleared_rows (row :: rows) (row :: kept) n.

Definition empty_row (b : board.Board) : list Cell :=
  replicate (Z.to_nat (board.width b)) None.

(** The grid has [height] rows of [width] cells, as [__post_init__]
    builds it. *)
Definition well_formed (b : board.Board) : Prop :=
  Z.of_nat (length (board.grid b)) = board.height b /\
  Forall (fun row => Z.of_nat (length row) = board.width b) (board.grid b).

(** Base points of a line clear, as tabulated. *)
Definition base_points (n : Z) : Z :=
  if n =? 1 then 100
  else if n =? 2 then 300
  else if n =? 3 then 500
  else if n =? 4 then 800
  else n * 100.

(** A small board with its bottom row full and a 10x20 board whose
    top-centre cell is taken. *)
Definition small_board : board.Board :=
  board.mkBoard 2 3 [[None; Some "T"]; [None; None]; [Some "I"; Some "I"]].

Definition blocked_board : board.Board :=
  board.set_grid
    (<[0%nat := <[5%nat := Some "X"]> (replicate 10 None)]> (board.grid (board.new 10 20)))
    (board.new 10 20).

(** The status of a game: [game_over] and whether a piece is active. *)
Definition status_ok (g : game.Game) : Prop :=
  game.game_over g = true -> game.active g = None.

(** The public operations of [Game]; [finalize] carries the time stamp
    read while it runs. *)
Inductive op : Type :=
| Start (profile_name : option string)
| Move (dx dy : Z)
| Rotate (clockwise : bool)
| Tick
| HardDrop
| LockPiece
| Finalize (now : string).

(** [run_op o g g']: calling [o] on [g] ends, by a return or by an
    exception, in [g']. *)
Definition run_op (o : op) (g g' : game.Game) : Prop :=
  match o with
  | Start profile_name => exists r, game.start profile_name g = (r, g')
  | Move dx dy => exists r, game.move dx dy g = (r, g')
  | Rotate clockwise => exists r, game.rotate clockwise g = (r, g')
  | Tick => exists r, game.tick g = (r, g')
  | HardDrop => exists fuel r, game.hard_drop fuel g = Some (r, g')
  | LockPiece => exists r, game.lock_piece g = (r, g')
  | Finalize now => exists r, game.finalize now g = (r, g')
  end.

Inductive reachable : game.Game -> Prop :=
| reachable_new board score_manager piece_sequence rng :
    reachable (game.new board score_manager piece_sequence rng)
| reachable_step g o g' :
    reachable g -> run_op o g g' -> reachable g'.

(** A generator that leaves every list in its order. *)
Definition identity_rng : game.Random := game.mkRandom (fun _ bag => bag) 0.

(** A game on the default board, started with the scripted pieces O, I. *)
Definition fresh_game : game.Game :=
  game.new (board.new 10 20) (scores.new (profiles.new None))
    (Some [tetromino.O; tetromino.I]) identity_rng.

Definition started_game : game.Game := snd (game.start None fresh_game).

(** The same game about to spawn on the board whose top-centre cell is
    taken. *)
Definition blocked_game : game.Game := game.set_board blocked_board fresh_game.

(** The game after a legal move of [piece] by [(dx, dy)]. *)
Definition moved (dx dy : Z) (piece : game.ActivePiece) (g : game.Game) : game.Game :=
  game.set_active
    (Some (game.mkActivePiece (game.state piece)
             (fst (game.origin piece) + dx, snd (game.origin piece) + dy)))
    (if dy >? 0
     then game.set_score_manager
            (scores.set_score (scores.score (game.score_manager g) + 1) (game.score_manager g)) g
     else g).

(** The game after [piece] has fallen [k] cells by successive downward
    moves, each credited one point. *)
Definition fallen (k : Z) (piece : game.ActivePiece) (g : game.Game) : game.Game :=
  game.set_active
    (Some (game.mkActivePiece (game.state piece)
             (fst (game.origin piece), snd (game.origin piece) + k)))
    (game.set_score_manager
       (scores.set_score (scores.score (game.score_manager g) + k) (game.score_manager g)) g).

(** Two games that differ at most in their piece supply. *)
Definition same_core (g g' : game.Game) : Prop :=
  game.board g' = game.board g /\
  game.score_manager g' = game.score_manager g /\
  game.active g' = game.active g /\
  game.game_over g' = game.game_over g.

(** The game once a spawn has failed. *)
Definition lost (g : game.Game) : game.Game :=
  game.set_active None (game.set_game_over true g).

(** The piece a spawn builds from a rotation state. *)
Definition spawned (g : game.Game) (st : tetromino.TetrominoState) : game.ActivePiece :=
  game.mkActivePiece st (board.width (game.board g) / 2, 0).

(** The started game after both scripted pieces have been dropped: the
    sequence is exhausted and the game is over. *)
Definition after_hard_drop (g : game.Game) : game.Game :=
  match game.hard_drop 30 g with
  | Some (_, g') => g'
  | None => g
  end.

Definition played_out_game : game.Game :=
  Eval vm_compute in after_hard_drop (after_hard_drop started_game).

(** The scenario of the repository's game test: pieces I and O, profile
    "test", the bottom row filled by hand except under the I piece, the
    piece dropped one step at a time and locked by a tick. *)
Definition test_manager : profiles.ProfileManager :=
  snd (profiles.create_profile "test" "2024-01-01T00:00:00Z" (profiles.new None)).

Definition test_start : game.Game :=
  snd (game.start (Some "test")
         (game.new (board.new 10 20) (scores.new test_manager)
            (Some [tetromino.I; tetromino.O]) identity_rng)).

Definition test_bottom : list Cell :=
  [Some "X"; Some "X"; Some "X"; None; None; None; None; Some "X"; Some "X"; Some "X"].

Definition test_prepared : game.Game :=
  game.set_board
    (board.set_grid (<[19%nat := test_bottom]> (board.grid (game.board test_start)))
       (game.board test_start))
    test_start.

(** [while game.soft_drop(): pass], with fuel. *)
Fixpoint soft_drop_all (fuel : nat) (g : game.Game) : game.Game :=
  match fuel with
  | 0%nat => g
  | Datatypes.S fuel' =>
      match game.soft_drop g with
      | (Ok true, g') => soft_drop_all fuel' g'
      | (_, g') => g'
      end
  end.

Definition test_end : game.Game := snd (game.tick (soft_drop_all 30 test_prepared)).

(** The content of the grid at column [x] of row [y]; [None] outside
    the grid. *)
Definition cell (b : board.Board) (x y : Z) : option Cell :=
  if (x <? 0) || (y <? 0) then None
  else board.grid b !! Z.to_nat y ≫= (fun row => row !! Z.to_nat x).

(** A coordinate [lock_piece] can take: above the top, or in the grid. *)
Definition lockable (b : board.Board) (c : Coordinate) : Prop :=
  snd c < 0 \/ (0 <= fst c < board.width b /\ 0 <= snd c < board.height b).

(** A coordinate a piece may occupy: between the side walls, above the
    floor, and on an empty cell when it is in the grid. *)
Definition legal (b : board.Board) (c : Coordinate) : Prop :=
  0 <= fst c < board.width b /\ snd c < board.height b /\
  (0 <= snd c -> cell b (fst c) (snd c) = Some None).

(** The body of the loop of [Board.lock_piece] for the content [v]. *)
Definition write_cell (v : Cell) (c : Coordinate) : M board.Board unit :=
  let '(x, y) := c in
  if y <? 0 then ret tt else board.set_cell x y v.

(** The calls that change a profile store, each with the time stamp read
    while it runs (none for [set_active_profile]). *)
Inductive store_op : Type :=
| CreateProfile (name now : string)
| SetActiveProfile (name : string)
| RecordGame (profile_name : string) (score lines : Z) (now : string).

(** The outcome of a call without its value. *)
Definition outcome {St A} (run : result A * St) : result unit * St :=
  match run with
  | (Ok _, s) => (Ok tt, s)
  | (Raise e, s) => (Raise e, s)
  end.

Definition store_step (o : store_op) (pm : profiles.ProfileManager)
  : result unit * profiles.ProfileManager :=
  match o with
  | CreateProfile name now => outcome (profiles.create_profile name now pm)
  | SetActiveProfile name => outcome (profiles.set_active_profile name pm)
  | RecordGame profile_name score lines now =>
      outcome (profiles.record_game profile_name score lines now pm)
  end.

(** The stores reached from a missing data file. *)
Inductive store_reachable : profiles.ProfileManager -> Prop :=
| store_new : store_reachable (profiles.new None)
| store_next pm o r pm' :
    store_reachable pm -> store_step o pm = (r, pm') -> store_reachable pm'.

Definition recorded (pm : profiles.ProfileManager) : list profiles.ScoreEntry :=
  default [] (profiles.scores (profiles._data pm)).

(** The entries of a score list recorded for a profile name. *)
Definition entries_of (name : string) (l : list profiles.ScoreEntry)
  : list profiles.ScoreEntry :=
  List.filter (fun e => bool_decide (profiles.profile e = name)) l.

(** The largest score of a list of entries, 0 for none. *)
Definition best_of (l : list profiles.ScoreEntry) : Z :=
  foldr (fun e acc => Z.max (profiles.score e) acc) 0 l.

(** Non-increasing order of scores. *)
Definition score_ge (a b : profiles.ScoreEntry) : Prop :=
  profiles.score b <= profiles.score a.

(** The entries of a list with a given score. *)
Definition with_score (k : Z) (l : list profiles.ScoreEntry) : list profiles.ScoreEntry :=
  List.filter (fun e => profiles.score e =? k) l.

(** A store with profile Alice and three games recorded. *)
Definition alice_store : profiles.ProfileManager :=
  snd (profiles.record_game "Alice" 700 7 "2024-01-04T00:00:00Z"
    (snd (profiles.record_game "Alice" 1200 10 "2024-01-03T00:00:00Z"
      (snd (profiles.record_game "Alice" 700 5 "2024-01-02T00:00:00Z"
        (snd (profiles.create_profile "Alice" "2024-01-01T00:00:00Z"
                (profiles.new None)))))))).

(** Every recorded entry names a stored profile, and every stored
    profile counts its entries and holds their largest score. *)
Definition consistent (pm : profiles.ProfileManager) : Prop :=
  (forall e, e ∈ recorded pm ->
     is_Some (profiles.profiles (profiles._data pm) !! profiles.profile e)) /\
  (forall name d,
     profiles.profiles (profiles._data pm) !! name = Some d ->
     profiles.key_games_played d = Z.of_nat (length (entries_of name (recorded pm))) /\
     profiles.key_best_score d = best_of (entries_of name (recorded pm))).

(** The calls that change a score manager between two resets. *)
Inductive score_op : Type :=
| AddSoftDrop (cells : Z)
| AddHardDrop (cells : Z)
| RecordLineClear (lines : Z)
| AttachProfile (name : string).

Definition score_step (o : score_op) (s : scores.ScoreManager) : scores.ScoreManager :=
  match o with
  | AddSoftDrop cells => snd (scores.add_soft_drop cells s)
  | AddHardDrop cells => snd (scores.add_hard_drop cells s)
  | RecordLineClear lines => snd (scores.record_line_clear lines s)
  | AttachProfile name => snd (scores.attach_profile name s)
  end.

Definition score_run (ops : list score_op) (s : scores.ScoreManager) : scores.ScoreManager :=
  foldl (fun s o => score_step o s) s ops.

(** [k] successive calls of [record_line_clear(n)]. *)
Fixpoint clear_times (k : nat) (n : Z) (s : scores.ScoreManager) : scores.ScoreManager :=
  match k with
  | 0%nat => s
  | Datatypes.S k' => clear_times k' n (snd (scores.record_line_clear n s))
  end.

(** A score manager on the store of Alice, with a score, before and
    after her profile is attached. *)
Definition alice_scores : scores.ScoreManager :=
  score_run [RecordLineClear 4; AddHardDrop 10] (scores.new alice_store).

Definition alice_attached : scores.ScoreManager :=
  score_step (AttachProfile "Alice") alice_scores.

(** The active piece, if any, lies on cells the board accepts. *)
Definition placed (g : game.Game) : Prop :=
  forall piece,
    game.active g = Some piece ->
    exists cells,
      game.blocks piece = Ok cells /\ board.can_place (game.board g) cells = Ok true.

Definition sound (g : game.Game) : Prop :=
  well_formed (game.board g) /\ placed g.

(** [played_from g0 g]: [g] is reached from [g0] by calls of the public
    operations, whether they return or raise. *)
Inductive played_from (g0 : game.Game) : game.Game -> Prop :=
| played_none : played_from g0 g0
| played_more g o g' : played_from g0 g -> run_op o g g' -> played_from g0 g'.

(** A shape with at least one rotation state and at least one cell in
    each. *)
Definition usable (shape : tetromino.Tetromino) : Prop :=
  tetromino.rotations shape <> [] /\
  Forall (fun cells => cells <> []) (tetromino.rotations shape).



(** [k] successive draws from the bag. *)
Fixpoint draw_many (k : nat) : M game.Game (list tetromino.Tetromino) :=
  match k with
  | 0%nat => ret []
  | Datatypes.S k' =>
      do shape <- game._draw_from_bag;
      do shapes <- draw_many k';
      ret (shape :: shapes)
  end.

(** A generator that reverses every list, and a game on the random bag
    with it. *)
Definition reversing_rng : game.Random := game.mkRandom (fun _ bag => rev bag) 0.

Definition bag_game : game.Game :=
  game.new (board.new 10 20) (scores.new (profiles.new None)) None reversing_rng.

(** A shape whose only rotation state has no cell, and a started game
    whose active piece it is. *)
Definition hollow : tetromino.Tetromino := tetromino.mkTetromino "hollow" [[]] "".

Definition hollow_game : game.Game :=
  snd (game.start None
         (game.new (board.new 10 20) (scores.new (profiles.new None))
            (Some [hollow]) identity_rng)).

(** The played-out game with the profile of Alice attached. *)
Definition finished_game : game.Game :=
  game.set_score_manager alice_attached played_out_game.

(** [kept g g']: [g'] is sound and its board has the dimensions of the
    board of [g]. *)
Definition kept (g g' : game.Game) : Prop :=
  sound g' /\
  board.width (game.board g') = board.width (game.board g) /\
  board.height (game.board g') = board.height (game.board g).

(** The game [start] hands to the spawn: board emptied, score state
    reset and attached to the profile name if it is not empty, bag
    emptied, [game_over] lowered; the active piece is not touched. *)
Definition restarted (profile_name : option string) (g : game.Game) : game.Game :=
  game.mkGame
    (board.new (board.width (game.board g)) (board.height (game.board g)))
    (scores.mkScoreManager (scores.profile_manager (game.score_manager g)) 0 0 0
       (if scores.truthy profile_name then profile_name else None))
    (game._piece_sequence g) (game._rng g) [] (game.active g) false.

(** A call that ends in the state it started from keeps what held. *)
Ltac unchanged Hkept :=
  let H := fresh "Hrun" in
  intros H; inversion H; subst; exact Hkept.

(** A call that ends with the game still running has a sound status. *)
Ltac still_running Hover :=
  let H := fresh "Hrun" in
  intros H; inversion H; subst; unfold status_ok; simpl; rewrite Hover; discriminate.

(** ** Properties of the monad *)

Lemma bind_inv {St A B} (m : M St A) (k : A -> M St B) s r s' :
  bind m k s = (r, s') ->
  (exists a s1, m s = (Ok a, s1) /\ k a s1 = (r, s')) \/
  (exists e, m s = (Raise e, s') /\ r = Raise e).
Proof.
  unfold bind. destruct (m s) as [[a | e] s1]; intros H.
  - left. eauto.
  - right. inversion H; subst. eauto.
Qed.

Lemma for_each_preserves {St A} (P : St -> Prop) (body : A -> M St unit) l :
  (forall x s r s', P s -> body x s = (r, s') -> P s') ->
  forall s r s', P s -> for_each l body s = (r, s') -> P s'.
Proof.
  intros Hbody. induction l as [| x l IH]; intros s r s' Hs Hrun; simpl in Hrun.
  - inversion Hrun; subst; assumption.
  - apply bind_inv in Hrun as [(a & s1 & Hx & Hrest) | (e & Hx & _)].
    + eapply IH; [eapply Hbody; eassumption | eassumption].
    + eapply Hbody; eassumption.
Qed.

(** ** tetromino.py *)

Lemma rotated_ok shape idx :
  state_count shape <> 0 ->
  tetromino.rotated shape idx
  = Ok (tetromino.mkTetrominoState shape (idx mod state_count shape)).
Proof.
  intros Hn. unfold tetromino.rotated, state_count in *.
  destruct (Z.eqb_spec (Z.of_nat (length (tetromino.rotations shape))) 0); [lia | reflexivity].
Qed.

Lemma catalog_cases shape :
  In shape tetromino.ALL_TETROMINOES ->
  shape = tetromino.I \/ shape = tetromino.O \/ shape = tetromino.T \/
  shape = tetromino.S \/ shape = tetromino.Z \/ shape = tetromino.J \/
  shape = tetromino.L.
Proof. simpl. intuition auto. Qed.

Lemma catalog_state_count shape :
  In shape tetromino.ALL_TETROMINOES ->
  state_count shape = 1 \/ state_count shape = 2 \/ state_count shape = 4.
Proof.
  intros H. apply catalog_cases in H.
  destruct H as [-> | [-> | [-> | [-> | [-> | [-> | ->]]]]]]; vm_compute; auto.
Qed.

Lemma catalog_blocks shape k :
  In shape tetromino.ALL_TETROMINOES ->
  0 <= k < state_count shape ->
  exists cells,
    tetromino.blocks (tetromino.mkTetrominoState shape k) = Ok cells /\
    length cells = 4%nat /\ In (0, 0) cells.
Proof.
  intros H Hk. apply catalog_cases in H.
  destruct H as [-> | [-> | [-> | [-> | [-> | [-> | ->]]]]]];
    unfold state_count in Hk; simpl in Hk;
    assert (Hc : k = 0 \/ k = 1 \/ k = 2 \/ k = 3) by lia;
    destruct Hc as [-> | [-> | [-> | ->]]]; try lia;
    (eexists; split; [reflexivity | split; [reflexivity | simpl; tauto]]).
Qed.

(** C8: for every shape of the catalog and every integer index, the
    offsets returned for the index are those returned for the index
    modulo the number of rotation states of the shape; that number is
    1, 2 or 4, so an index and the index plus 4 give the same offsets;
    shape O has one rotation state, so its offsets never change. *)
Theorem rotation_blocks_modulo (shape : tetromino.Tetromino) (idx : Z) :
  In shape tetromino.ALL_TETROMINOES ->
  (exists cells, rotation_blocks shape idx = Ok cells /\ length cells = 4%nat) /\
  rotation_blocks shape idx = rotation_blocks shape (idx mod state_count shape) /\
  (state_count shape = 1 \/ state_count shape = 2 \/ state_count shape = 4) /\
  rotation_blocks shape (idx + 4) = rotation_blocks shape idx /\
  state_count tetromino.O = 1 /\
  tetromino.rotated tetromino.O (idx + 1) = tetromino.rotated tetromino.O idx /\
  tetromino.rotated tetromino.O (idx - 1) = tetromino.rotated tetromino.O idx.
Proof.
  intros Hin.
  pose proof (catalog_state_count shape Hin) as Hcount.
  assert (Hn : state_count shape <> 0) by lia.
  assert (Hpos : 0 < state_count shape) by lia.
  split; [| split; [| split; [assumption | split; [| split; [reflexivity | split]]]]].
  - unfold rotation_blocks. rewrite rotated_ok by assumption. simpl.
    destruct (catalog_blocks shape (idx mod state_count shape) Hin) as (cells & Hb & Hlen & _).
    { apply Z.mod_pos_bound; assumption. }
    exists cells; split; assumption.
  - unfold rotation_blocks. rewrite !rotated_ok by assumption.
    rewrite Z.mod_mod by assumption. reflexivity.
  - unfold rotation_blocks. rewrite !rotated_ok by assumption.
    replace ((idx + 4) mod state_count shape) with (idx mod state_count shape); [reflexivity |].
    destruct Hcount as [-> | [-> | ->]].
    + rewrite !Z.mod_1_r. reflexivity.
    + replace (idx + 4) with (idx + 2 * 2) by lia. rewrite Z.mod_add by lia. reflexivity.
    + replace (idx + 4) with (idx + 1 * 4) by lia. rewrite Z.mod_add by lia. reflexivity.
  - rewrite !rotated_ok by (vm_compute; discriminate).
    change (state_count tetromino.O) with 1. rewrite !Z.mod_1_r. reflexivity.
  - rewrite !rotated_ok by (vm_compute; discriminate).
    change (state_count tetromino.O) with 1. rewrite !Z.mod_1_r. reflexivity.
Qed.

Lemma rotation_blocks_modulo_witness :
  In tetromino.S tetromino.ALL_TETROMINOES /\
  rotation_blocks tetromino.S 5 = rotation_blocks tetromino.S (5 mod state_count tetromino.S).
Proof.
  split.
  - simpl; tauto.
  - apply (rotation_blocks_modulo tetromino.S 5). simpl; tauto.
Defined.

(** ** board.py *)

Lemma any_None_true row : board.any_None row = true <-> ~ row_full row.
Proof.
  unfold board.any_None, row_full. induction row as [| cell row IH]; simpl.
  - split; [discriminate | intros H; exfalso; apply H; constructor].
  - destruct cell as [v |]; simpl.
    + rewrite IH. split.
      * intros Hn Hall. inversion Hall; subst. auto.
      * intros Hn Hall. apply Hn. constructor; [discriminate | assumption].
    + split; [| reflexivity]. intros _ Hall. inversion Hall; subst. congruence.
Qed.

Lemma any_None_false row : board.any_None row = false <-> row_full row.
Proof.
  split.
  - intros H. destruct (decide (Forall (fun cell : Cell => cell <> None) row)) as [Hf | Hf].
    + exact Hf.
    + apply any_None_true in Hf. congruence.
  - intros H. destruct (board.any_None row) eqn:E; [| reflexivity].
    apply any_None_true in E. contradiction.
Qed.

Lemma filter_cleared_rows rows :
  exists n,
    cleared_rows rows (List.filter board.any_None rows) n /\
    length rows = (n + length (List.filter board.any_None rows))%nat.
Proof.
  induction rows as [| row rows (n & Hc & Hlen)]; simpl.
  - exists 0%nat. split; [constructor | reflexivity].
  - destruct (board.any_None row) eqn:E.
    + exists n. split; [| simpl; lia].
      apply cleared_keep; [apply any_None_true; assumption | assumption].
    + exists (Datatypes.S n). split; [| lia].
      apply cleared_drop; [apply any_None_false; assumption | assumption].
Qed.

Lemma cleared_rows_none_full rows kept n :
  cleared_rows rows kept n ->
  Forall (fun row => ~ row_full row) rows ->
  n = 0%nat /\ kept = rows.
Proof.
  induction 1 as [| row rows kept n Hfull _ _ | row rows kept n _ _ IH]; intros Hall.
  - auto.
  - inversion Hall; subst. contradiction.
  - inversion Hall; subst. destruct IH as [-> ->]; auto.
Qed.

Lemma cleared_rows_zero rows kept : cleared_rows rows kept 0 -> kept = rows.
Proof.
  remember 0%nat as n eqn:Hn. induction 1; try discriminate; [reflexivity |].
  f_equal. auto.
Qed.

Lemma set_grid_same b : board.set_grid (board.grid b) b = b.
Proof. destruct b; reflexivity. Qed.

(** The grid keeps [height] rows of [width] cells under every method
    of [Board], whether it returns or raises. *)

Lemma new_well_formed w h : 0 <= w -> 0 <= h -> well_formed (board.new w h).
Proof.
  intros Hw Hh. unfold well_formed, board.new; simpl. split.
  - rewrite length_replicate. lia.
  - apply Forall_forall. intros row Hrow.
    apply elem_of_replicate in Hrow as [-> _].
    rewrite length_replicate. lia.
Qed.

Lemma getitem_elem {A} (l : list A) i x : getitem l i = Ok x -> x ∈ l.
Proof.
  unfold getitem. destruct (index l i) as [k | e]; simpl; [| discriminate].
  destruct (l !! k) as [y |] eqn:Hlook; [| discriminate].
  intros H; inversion H; subst. eapply list_elem_of_lookup_2. eassumption.
Qed.

Lemma setitem_insert {A} (l l' : list A) i v :
  setitem l i v = Ok l' -> exists k, l' = <[k := v]> l.
Proof.
  unfold setitem. destruct (index l i) as [k | e]; simpl; [| discriminate].
  intros H; inversion H; subst. eauto.
Qed.

Lemma set_cell_well_formed x y v b r b' :
  well_formed b -> board.set_cell x y v b = (r, b') ->
  well_formed b' /\ board.width b' = board.width b /\ board.height b' = board.height b.
Proof.
  intros [Hrows Hcols]. unfold board.set_cell, bind, get, lift, modify. simpl.
  destruct (getitem (board.grid b) y) as [row | e] eqn:Hrow;
    [| intros H; inversion H; subst; unfold well_formed; auto].
  destruct (setitem row x v) as [row' | e] eqn:Hrow';
    [| intros H; inversion H; subst; unfold well_formed; auto].
  destruct (setitem (board.grid b) y row') as [g' | e] eqn:Hg';
    [| intros H; inversion H; subst; unfold well_formed; auto].
  intros H; inversion H; subst; clear H.
  apply setitem_insert in Hrow' as [j ->]. apply setitem_insert in Hg' as [k ->].
  apply getitem_elem in Hrow.
  unfold well_formed; simpl. rewrite length_insert. repeat split; try assumption.
  apply Forall_insert; [assumption |]. rewrite length_insert.
  rewrite Forall_forall in Hcols. apply Hcols. assumption.
Qed.

Lemma reset_well_formed b r b' :
  well_formed b -> board.reset b = (r, b') ->
  well_formed b' /\ board.width b' = board.width b /\ board.height b' = board.height b.
Proof.
  intros Hwf. unfold board.reset, bind, get. simpl.
  apply (for_each_preserves
           (fun s => well_formed s /\ board.width s = board.width b /\
                     board.height s = board.height b)); [| auto].
  intros y s r1 s1 Hs.
  apply (for_each_preserves
           (fun s => well_formed s /\ board.width s = board.width b /\
                     board.height s = board.height b)); [| exact Hs].
  intros x s2 r2 s3 (Hwf2 & Hw2 & Hh2) Hcell.
  apply set_cell_well_formed in Hcell as (Hwf3 & Hw3 & Hh3); [| exact Hwf2].
  split; [exact Hwf3 | split; congruence].
Qed.

Lemma lock_piece_well_formed cells value b r b' :
  well_formed b -> board.lock_piece cells value b = (r, b') ->
  well_formed b' /\ board.width b' = board.width b /\ board.height b' = board.height b.
Proof.
  intros Hwf. unfold board.lock_piece.
  apply (for_each_preserves
           (fun s => well_formed s /\ board.width s = board.width b /\
                     board.height s = board.height b)); [| auto].
  intros [x y] s r1 s1 (Hwf1 & Hw1 & Hh1).
  destruct (y <? 0).
  - intros H; inversion H; subst. auto.
  - intros Hcell. apply set_cell_well_formed in Hcell as (Hwf2 & Hw2 & Hh2); [| exact Hwf1].
    split; [exact Hwf2 | split; congruence].
Qed.

Lemma clear_full_lines_well_formed b r b' :
  well_formed b -> board.clear_full_lines b = (r, b') ->
  well_formed b' /\ board.width b' = board.width b /\ board.height b' = board.height b.
Proof.
  intros [Hrows Hcols]. unfold board.clear_full_lines, bind, get, modify, ret. simpl.
  destruct (filter_cleared_rows (board.grid b)) as (n & _ & Hlen).
  destruct (Z.eqb_spec (board.height b
                        - Z.of_nat (length (List.filter board.any_None (board.grid b)))) 0)
    as [Hz | Hnz]; intros H; inversion H; subst; clear H;
    [unfold well_formed; auto |].
  unfold well_formed; simpl. repeat split.
  - rewrite length_app, length_replicate. lia.
  - apply Forall_app. split.
    + apply Forall_forall. intros row Hrow. apply elem_of_replicate in Hrow as [-> _].
      rewrite length_replicate.
      destruct (board.grid b) as [| row0 rows] eqn:Hgrid; [simpl in *; lia |].
      inversion Hcols; subst. lia.
    + apply Forall_forall. intros row Hrow.
      apply list_elem_of_In, filter_In in Hrow as [Hrow _].
      rewrite Forall_forall in Hcols. apply Hcols, list_elem_of_In. exact Hrow.
Qed.

(** C4: on a board whose grid has [height] rows, [clear_full_lines]
    leaves out exactly the rows with no empty cell and returns how many
    they are; the rows kept stay in their order below that many empty
    rows put on top, so the grid keeps its number of rows; when no row
    is full it returns 0 and the board is unchanged. *)
Theorem clear_full_lines_spec (b : board.Board) :
  Z.of_nat (length (board.grid b)) = board.height b ->
  (exists kept n,
     cleared_rows (board.grid b) kept n /\
     board.clear_full_lines b
     = (Ok (Z.of_nat n), board.set_grid (replicate n (empty_row b) ++ kept) b) /\
     length (replicate n (empty_row b) ++ kept) = length (board.grid b)) /\
  (Forall (fun row => ~ row_full row) (board.grid b) ->
   board.clear_full_lines b = (Ok 0, b)).
Proof.
  intros Hwf.
  destruct (filter_cleared_rows (board.grid b)) as (n & Hc & Hlen).
  assert (Hrun : board.clear_full_lines b
                 = (Ok (Z.of_nat n),
                    board.set_grid
                      (replicate n (empty_row b) ++ List.filter board.any_None (board.grid b)) b)).
  { unfold board.clear_full_lines, bind, get, modify, ret; simpl.
    replace (board.height b - Z.of_nat (length (List.filter board.any_None (board.grid b))))
      with (Z.of_nat n) by lia.
    destruct (Z.eqb_spec (Z.of_nat n) 0) as [Hz | Hz].
    - assert (n = 0%nat) by lia; subst n. simpl.
      rewrite (cleared_rows_zero _ _ Hc), set_grid_same. reflexivity.
    - rewrite Nat2Z.id. reflexivity. }
  split.
  - exists (List.filter board.any_None (board.grid b)), n.
    split; [assumption | split; [assumption |]].
    rewrite length_app, length_replicate. lia.
  - intros Hnone.
    destruct (cleared_rows_none_full _ _ _ Hc Hnone) as [-> Hkept].
    rewrite Hrun, Hkept. simpl. rewrite set_grid_same. reflexivity.
Qed.

Lemma clear_full_lines_spec_witness :
  Z.of_nat (length (board.grid small_board)) = board.height small_board /\
  exists kept n,
    cleared_rows (board.grid small_board) kept n /\
    board.clear_full_lines small_board
    = (Ok (Z.of_nat n), board.set_grid (replicate n (empty_row small_board) ++ kept) small_board) /\
    length (replicate n (empty_row small_board) ++ kept) = length (board.grid small_board).
Proof.
  split.
  - reflexivity.
  - apply (clear_full_lines_spec small_board). reflexivity.
Defined.

Example clear_full_lines_small :
  board.clear_full_lines small_board
  = (Ok 1, board.mkBoard 2 3 [[None; None]; [None; Some "T"]; [None; None]]).
Proof. reflexivity. Qed.

(** ** scores.py *)

Lemma line_scores_get n :
  default (n * 100) (scores.line_scores !! n) = base_points n.
Proof.
  unfold scores.line_scores, base_points.
  destruct (Z.eqb_spec n 1) as [-> | H1]; [reflexivity |].
  destruct (Z.eqb_spec n 2) as [-> | H2]; [reflexivity |].
  destruct (Z.eqb_spec n 3) as [-> | H3]; [reflexivity |].
  destruct (Z.eqb_spec n 4) as [-> | H4]; [reflexivity |].
  rewrite !lookup_insert_ne by congruence. rewrite lookup_empty. reflexivity.
Qed.

Lemma record_line_clear_nonpos n s :
  n <= 0 -> scores.record_line_clear n s = (Ok 0, scores.set_combo_streak 0 s).
Proof.
  intros Hn. unfold scores.record_line_clear.
  destruct (Z.leb_spec n 0); [reflexivity | lia].
Qed.

Lemma record_line_clear_pos n s :
  1 <= n ->
  scores.record_line_clear n s
  = (Ok (base_points n + scores.combo_streak s * 50),
     scores.mkScoreManager (scores.profile_manager s)
       (scores.score s + (base_points n + scores.combo_streak s * 50))
       (scores.total_lines s + n)
       (scores.combo_streak s + 1)
       (scores.active_profile s)).
Proof.
  intros Hn. unfold scores.record_line_clear.
  destruct (Z.leb_spec n 0); [lia |].
  unfold bind, modify, get, ret; simpl.
  rewrite line_scores_get. unfold scores.combo_bonus.
  replace (scores.combo_streak s + 1 - 1) with (scores.combo_streak s) by lia.
  reflexivity.
Qed.

(** C3: [record_line_clear n] with [n <= 0] resets the streak to 0 and
    gains 0, leaving score and total lines as they were; with [n >= 1]
    it gains the base points of [n] (100, 300, 500, 800 for 1 to 4 lines,
    [n * 100] otherwise) plus 50 times the streak before the call, adds
    the gain to the score, increments the streak and adds [n] to the
    total lines.  On a fresh score manager the calls with 1, 2 and 0
    gain 100, 350 and 0 and end with score 450 and streak 0. *)
Theorem record_line_clear_spec (n : Z) (s : scores.ScoreManager) (pm : profiles.ProfileManager) :
  (n <= 0 -> scores.record_line_clear n s = (Ok 0, scores.set_combo_streak 0 s)) /\
  (1 <= n ->
   scores.record_line_clear n s
   = (Ok (base_points n + scores.combo_streak s * 50),
      scores.mkScoreManager (scores.profile_manager s)
        (scores.score s + (base_points n + scores.combo_streak s * 50))
        (scores.total_lines s + n)
        (scores.combo_streak s + 1)
        (scores.active_profile s))) /\
  (base_points 1 = 100 /\ base_points 2 = 300 /\ base_points 3 = 500 /\ base_points 4 = 800 /\
   (n < 1 \/ 4 < n -> base_points n = n * 100)) /\
  (exists s1 s2 s3,
     scores.record_line_clear 1 (scores.new pm) = (Ok 100, s1) /\
     scores.record_line_clear 2 s1 = (Ok 350, s2) /\
     scores.record_line_clear 0 s2 = (Ok 0, s3) /\
     scores.score s3 = 450 /\ scores.combo_streak s3 = 0).
Proof.
  split; [apply record_line_clear_nonpos | split; [apply record_line_clear_pos | split]].
  - repeat split; try reflexivity.
    intros Hn. unfold base_points.
    destruct (Z.eqb_spec n 1); [lia |]. destruct (Z.eqb_spec n 2); [lia |].
    destruct (Z.eqb_spec n 3); [lia |]. destruct (Z.eqb_spec n 4); [lia | reflexivity].
  - eexists _, _, _.
    split; [rewrite record_line_clear_pos by lia; reflexivity |].
    split; [rewrite record_line_clear_pos by lia; reflexivity |].
    split; [rewrite record_line_clear_nonpos by lia; reflexivity |].
    split; reflexivity.
Qed.

(** ** profiles.py *)

Lemma get_profile_None pm name :
  profiles.get_profile pm name = None <-> profiles.profiles (profiles._data pm) !! name = None.
Proof.
  unfold profiles.get_profile.
  destruct (profiles.profiles (profiles._data pm) !! name); split; congruence.
Qed.

Lemma record_game_unknown name score lines now pm :
  profiles.get_profile pm name = None ->
  profiles.record_game name score lines now pm
  = (Raise (ValueError ("Profil inconnu: " +:+ name)), pm).
Proof.
  intros H. unfold profiles.record_game, bind, get. simpl. rewrite H. reflexivity.
Qed.

Lemma record_game_known name score lines now pm p :
  profiles.get_profile pm name = Some p ->
  let p' := profiles.mkProfile (profiles.name p) (profiles.created_at p) (Some now)
              (profiles.games_played p + 1) (Z.max (profiles.best_score p) score) in
  let data' := profiles.mkData (profiles.active_profile (profiles._data pm))
                 (<[name := profiles.to_dict p']> (profiles.profiles (profiles._data pm)))
                 (Some (default [] (profiles.scores (profiles._data pm))
                        ++ [profiles.mkScoreEntry name score lines (Some now)])) in
  profiles.record_game name score lines now pm
  = (Ok tt, profiles.mkProfileManager data' (Some data')).
Proof.
  intros H. unfold profiles.record_game, bind, get. simpl. rewrite H.
  unfold modify, profiles.save, profiles.set_data. simpl.
  replace (if score >? profiles.best_score p then score else profiles.best_score p)
    with (Z.max (profiles.best_score p) score); [reflexivity |].
  destruct (Z.gtb_spec score (profiles.best_score p)); lia.
Qed.

(** C9: [record_game] raises the unknown-profile [ValueError] exactly
    when the profile is absent, and then the document in memory and the
    stored file are unchanged; otherwise it returns, the profile has one
    more game played and the larger of its old best score and the new
    score as best score, the other profiles are untouched, and the score
    list is the old one followed by one entry with that profile name,
    score and lines. *)
Theorem record_game_spec (name : string) (score lines : Z) (now : string)
    (pm pm' : profiles.ProfileManager) (r : result unit) :
  profiles.record_game name score lines now pm = (r, pm') ->
  (profiles.get_profile pm name = None ->
   r = Raise (ValueError ("Profil inconnu: " +:+ name)) /\ pm' = pm) /\
  (forall p, profiles.get_profile pm name = Some p ->
     r = Ok tt /\
     (exists p', profiles.get_profile pm' name = Some p' /\
        profiles.games_played p' = profiles.games_played p + 1 /\
        profiles.best_score p' = Z.max (profiles.best_score p) score) /\
     (forall other, other <> name ->
        profiles.get_profile pm' other = profiles.get_profile pm other) /\
     (exists entry,
        default [] (profiles.scores (profiles._data pm'))
        = default [] (profiles.scores (profiles._data pm)) ++ [entry] /\
        profiles.profile entry = name /\
        profiles.score entry = score /\
        profiles.lines entry = lines) /\
     profiles.data_file pm' = Some (profiles._data pm')) /\
  (r = Ok tt \/ exists msg, r = Raise (ValueError msg) /\ profiles.get_profile pm name = None).
Proof.
  intros Hrun.
  destruct (profiles.get_profile pm name) as [p |] eqn:Hget.
  - rewrite (record_game_known _ _ _ _ _ _ Hget) in Hrun.
    inversion Hrun; subst; clear Hrun.
    split; [discriminate | split; [| left; reflexivity]].
    intros q Hq. inversion Hq; subst q; clear Hq.
    split; [reflexivity | split; [| split; [| split; [| reflexivity]]]].
    + eexists. unfold profiles.get_profile; simpl.
      rewrite lookup_insert_eq. split; [reflexivity | split; reflexivity].
    + intros other Hother. unfold profiles.get_profile; simpl.
      rewrite lookup_insert_ne by congruence. reflexivity.
    + eexists. simpl. split; [reflexivity | repeat split].
  - rewrite (record_game_unknown _ _ _ _ _ Hget) in Hrun.
    inversion Hrun; subst; clear Hrun.
    split; [auto | split; [discriminate |]].
    right. eexists. split; reflexivity.
Qed.

Lemma record_game_spec_witness :
  profiles.get_profile (profiles.new None) "Bob" = None /\
  profiles.record_game "Bob" 1234 4 "2024-01-01T00:00:00Z" (profiles.new None)
  = (Raise (ValueError "Profil inconnu: Bob"), profiles.new None).
Proof.
  split; [reflexivity |].
  destruct (record_game_spec "Bob" 1234 4 "2024-01-01T00:00:00Z"
              (profiles.new None) (profiles.new None)
              (Raise (ValueError "Profil inconnu: Bob")) eq_refl) as [Habsent _].
  reflexivity.
Defined.

(** C10: when [create_profile name] returns, the profiles mapping is the
    old one with the new record under [name], the returned profile is
    that record, and the [active_profile] field of the document, which
    lies outside the mapping, has been overwritten with [name]; the
    score list is untouched and the document has been saved. *)
Theorem create_profile_sets_active (name now : string)
    (pm pm' : profiles.ProfileManager) (p : profiles.Profile) :
  profiles.create_profile name now pm = (Ok p, pm') ->
  profiles.profiles (profiles._data pm) !! name = None /\
  p = profiles.mkProfile name now None 0 0 /\
  profiles.profiles (profiles._data pm')
  = <[name := profiles.to_dict p]> (profiles.profiles (profiles._data pm)) /\
  profiles.active_profile (profiles._data pm') = Some name /\
  profiles.scores (profiles._data pm') = profiles.scores (profiles._data pm) /\
  profiles.data_file pm' = Some (profiles._data pm').
Proof.
  unfold profiles.create_profile, bind, get. simpl.
  destruct (profiles.profiles (profiles._data pm) !! name) as [d |] eqn:Hlook.
  - rewrite bool_decide_eq_true_2 by eauto. intros H; inversion H.
  - rewrite bool_decide_eq_false_2 by (intros [d Hd]; discriminate).
    intros H; inversion H; subst; clear H. simpl. repeat split.
Qed.

Lemma create_profile_sets_active_witness :
  profiles.active_profile (profiles._data (profiles.new None)) = None /\
  profiles.active_profile
    (profiles._data (snd (profiles.create_profile "Alice" "2024-01-01T00:00:00Z"
                            (profiles.new None))))
  = Some "Alice".
Proof.
  split; [reflexivity |].
  set (run := profiles.create_profile "Alice" "2024-01-01T00:00:00Z" (profiles.new None)).
  assert (E : run = (Ok (profiles.mkProfile "Alice" "2024-01-01T00:00:00Z" None 0 0), snd run))
    by (vm_compute; reflexivity).
  exact (proj1 (proj2 (proj2 (proj2 (create_profile_sets_active _ _ _ _ _ E))))).
Defined.

Lemma create_profile_taken name now pm :
  is_Some (profiles.profiles (profiles._data pm) !! name) ->
  profiles.create_profile name now pm
  = (Raise (ValueError ("Le profil '" +:+ name +:+ "' existe déjà")), pm).
Proof.
  intros H. unfold profiles.create_profile, bind, get. simpl.
  rewrite bool_decide_eq_true_2 by assumption. reflexivity.
Qed.

(** ** game.py *)

Lemma add_soft_drop_one sm :
  scores.add_soft_drop 1 sm = (Ok tt, scores.set_score (scores.score sm + 1) sm).
Proof. reflexivity. Qed.

Lemma add_hard_drop_score d sm sm' r :
  0 <= d ->
  scores.add_hard_drop d sm = (r, sm') ->
  sm' = scores.set_score (scores.score sm + 2 * d) sm.
Proof.
  intros Hd. unfold scores.add_hard_drop.
  destruct (Z.leb_spec d 0) as [Hle | Hlt]; intros Hrun.
  - assert (d = 0) by lia; subst d. inversion Hrun; subst.
    destruct sm'; unfold scores.set_score; simpl. f_equal. lia.
  - unfold bind, get, modify in Hrun. simpl in Hrun. inversion Hrun; subst.
    unfold scores.hard_drop_bonus. f_equal. lia.
Qed.

Lemma move_unfold dx dy g :
  game.move dx dy g =
  match game.active g with
  | None => (Ok false, g)
  | Some piece =>
      if game.game_over g then (Ok false, g)
      else
        match tetromino.blocks (game.state piece) with
        | Raise e => (Raise e, g)
        | Ok offsets =>
            match board.can_place (game.board g)
                    (game.at_origin (fst (game.origin piece) + dx, snd (game.origin piece) + dy)
                       offsets) with
            | Raise e => (Raise e, g)
            | Ok false => (Ok false, g)
            | Ok true => (Ok true, moved dx dy piece g)
            end
        end
  end.
Proof.
  unfold game.move, bind, get. simpl.
  destruct (game.active g) as [piece |]; [| reflexivity].
  destruct (game.game_over g); [reflexivity |].
  unfold lift. destruct (tetromino.blocks (game.state piece)) as [offsets | e]; [| reflexivity].
  destruct (board.can_place _ _) as [[|] | e]; try reflexivity.
  simpl. unfold moved. destruct (dy >? 0); [| reflexivity].
  unfold zoom. rewrite add_soft_drop_one. reflexivity.
Qed.

Lemma move_false_same dx dy g g' :
  game.move dx dy g = (Ok false, g') -> g' = g.
Proof.
  rewrite move_unfold.
  destruct (game.active g) as [piece |]; [| congruence].
  destruct (game.game_over g); [congruence |].
  destruct (tetromino.blocks (game.state piece)) as [offsets | e]; [| discriminate].
  destruct (board.can_place _ _) as [[|] | e]; congruence.
Qed.

(** C5: when [move] returns [False] the game is the one it was called
    on, so the grid, the active piece and the score state are unchanged;
    and it returns [False] only when no piece is active, when the game is
    over, or when the board refuses the translated cells. *)
Theorem move_failure_unchanged (dx dy : Z) (g g' : game.Game) :
  game.move dx dy g = (Ok false, g') ->
  g' = g /\
  board.grid (game.board g') = board.grid (game.board g) /\
  game.active g' = game.active g /\
  game.score_manager g' = game.score_manager g /\
  (game.active g = None \/
   game.game_over g = true \/
   exists piece offsets,
     game.active g = Some piece /\
     tetromino.blocks (game.state piece) = Ok offsets /\
     board.can_place (game.board g)
       (game.at_origin (fst (game.origin piece) + dx, snd (game.origin piece) + dy) offsets)
     = Ok false).
Proof.
  rewrite move_unfold. intros H.
  assert (Hsame : g' = g /\
          (game.active g = None \/ game.game_over g = true \/
           exists piece offsets,
             game.active g = Some piece /\
             tetromino.blocks (game.state piece) = Ok offsets /\
             board.can_place (game.board g)
               (game.at_origin (fst (game.origin piece) + dx, snd (game.origin piece) + dy)
                  offsets) = Ok false)).
  { destruct (game.active g) as [piece |]; [| inversion H; auto].
    destruct (game.game_over g); [inversion H; auto |].
    destruct (tetromino.blocks (game.state piece)) as [offsets | e] eqn:Hoff; [| discriminate].
    destruct (board.can_place _ _) as [[|] | e] eqn:Hplace; try discriminate.
    inversion H; subst. split; [reflexivity |]. right; right.
    exists piece, offsets. auto. }
  destruct Hsame as [-> Hwhy]. auto.
Qed.

Lemma move_failure_unchanged_witness :
  exists g',
    game.move (-10) 0 started_game = (Ok false, g') /\
    game.active started_game <> None /\
    g' = started_game.
Proof.
  eexists. split; [vm_compute; reflexivity |].
  split; [vm_compute; discriminate |].
  refine (proj1 (move_failure_unchanged (-10) 0 started_game _ _)).
  vm_compute; reflexivity.
Defined.

Lemma move_raise_unchanged dx dy g e g' :
  game.move dx dy g = (Raise e, g') -> g' = g.
Proof.
  rewrite move_unfold.
  destruct (game.active g) as [piece |]; [| discriminate].
  destruct (game.game_over g); [discriminate |].
  destruct (tetromino.blocks (game.state piece)) as [offsets | e1]; [| congruence].
  destruct (board.can_place _ _) as [[|] | e1]; congruence.
Qed.

Lemma move_success dx dy g g1 :
  game.move dx dy g = (Ok true, g1) ->
  exists piece,
    game.active g = Some piece /\ game.game_over g = false /\ g1 = moved dx dy piece g.
Proof.
  rewrite move_unfold.
  destruct (game.active g) as [piece |]; [| discriminate].
  destruct (game.game_over g); [discriminate |].
  destruct (tetromino.blocks (game.state piece)) as [offsets | e1]; [| discriminate].
  destruct (board.can_place _ _) as [[|] | e1]; try discriminate.
  intros H; inversion H; subst. eauto.
Qed.

(** C2, as the code has it: a gravity tick whose downward move succeeds
    ends in the state of that move, without locking, and the score has
    grown by exactly 1, the soft-drop bonus [move] credits for every
    downward move; the board, the total lines and the streak are
    unchanged and the piece is one row lower. *)
Theorem tick_credits_one_point (g g1 : game.Game) :
  game.move 0 1 g = (Ok true, g1) ->
  game.tick g = (Ok tt, g1) /\
  scores.score (game.score_manager g1) = scores.score (game.score_manager g) + 1 /\
  scores.total_lines (game.score_manager g1) = scores.total_lines (game.score_manager g) /\
  scores.combo_streak (game.score_manager g1) = scores.combo_streak (game.score_manager g) /\
  game.board g1 = game.board g /\
  exists piece,
    game.active g = Some piece /\
    game.active g1
    = Some (game.mkActivePiece (game.state piece)
              (fst (game.origin piece) + 0, snd (game.origin piece) + 1)).
Proof.
  intros Hmove.
  destruct (move_success _ _ _ _ Hmove) as (piece & Hact & Hover & ->).
  split.
  - unfold game.tick, bind, get. simpl. rewrite Hact, Hover, Hmove. reflexivity.
  - unfold moved. simpl. repeat split; try reflexivity. eauto.
Qed.

Lemma tick_credits_one_point_witness :
  game.move 0 1 started_game = (Ok true, snd (game.move 0 1 started_game)) /\
  scores.score (game.score_manager (snd (game.move 0 1 started_game)))
  = scores.score (game.score_manager started_game) + 1.
Proof.
  assert (E : game.move 0 1 started_game = (Ok true, snd (game.move 0 1 started_game)))
    by (vm_compute; reflexivity).
  split; [exact E |].
  exact (proj1 (proj2 (tick_credits_one_point _ _ E))).
Defined.

(** C2 as stated fails: on the started game the gravity tick moves the
    piece one cell down without locking, and the score goes from 0 to 1. *)
Lemma tick_leaves_score_counterexample :
  exists g1,
    game.move 0 1 started_game = (Ok true, g1) /\
    game.tick started_game = (Ok tt, g1) /\
    scores.score (game.score_manager started_game) = 0 /\
    scores.score (game.score_manager g1) = 1 /\
    scores.score (game.score_manager g1) <> scores.score (game.score_manager started_game).
Proof.
  eexists. split; [vm_compute; reflexivity |].
  split; [vm_compute; reflexivity |].
  split; [vm_compute; reflexivity |].
  split; [vm_compute; reflexivity |].
  vm_compute. discriminate.
Qed.

(** *** Drawing and spawning *)

Lemma same_core_refl g : same_core g g.
Proof. unfold same_core; auto. Qed.

Lemma next_tetromino_same_core g r g1 :
  game._next_tetromino g = (r, g1) -> same_core g g1.
Proof.
  unfold game._next_tetromino, bind, get. simpl.
  destruct (game._piece_sequence g) as [sequence |] eqn:Hseq.
  - unfold game._draw_from_sequence, bind, get. simpl. rewrite Hseq.
    destruct sequence as [| first rest]; intros H; inversion H; subst;
      unfold same_core; simpl; auto.
  - unfold game._draw_from_bag, bind, get. simpl.
    destruct (game._bag g) as [| first rest] eqn:Hbag.
    + unfold modify, zoom. simpl.
      destruct (game.oracle (game._rng g) (game.calls (game._rng g)) tetromino.ALL_TETROMINOES)
        as [| first rest]; simpl; intros H; inversion H; subst;
        unfold same_core; simpl; auto.
    + unfold zoom. simpl. rewrite Hbag. simpl. intros H; inversion H; subst.
      unfold same_core; simpl; auto.
Qed.

Lemma spawn_unfold g :
  game._spawn_next_piece g =
  match game._next_tetromino g with
  | (Raise e, g1) => if game.is_StopIteration e then (Ok tt, lost g1) else (Raise e, g1)
  | (Ok shape, g1) =>
      match tetromino.rotated shape 0 with
      | Raise e => (Raise e, g1)
      | Ok st =>
          match game.blocks (spawned g1 st) with
          | Raise e => (Raise e, g1)
          | Ok cells =>
              match board.can_place (game.board g1) cells with
              | Raise e => (Raise e, g1)
              | Ok false => (Ok tt, lost g1)
              | Ok true => (Ok tt, game.set_active (Some (spawned g1 st)) g1)
              end
          end
      end
  end.
Proof.
  unfold game._spawn_next_piece, bind, game.try_except.
  destruct (game._next_tetromino g) as [[shape | e] g1].
  - simpl. unfold lift. destruct (tetromino.rotated shape 0) as [st | e]; [| reflexivity].
    simpl. fold (spawned g1 st).
    destruct (game.blocks (spawned g1 st)) as [cells | e]; [| reflexivity].
    destruct (board.can_place (game.board g1) cells) as [[|] | e]; reflexivity.
  - destruct (game.is_StopIteration e); reflexivity.
Qed.

(** A spawn leaves the board and the score state alone, and ends in one
    of three ways: an exception before anything is assigned, a lost game,
    or a new active piece with [game_over] as it was. *)
Lemma spawn_cases g r g' :
  game._spawn_next_piece g = (r, g') ->
  game.board g' = game.board g /\
  game.score_manager g' = game.score_manager g /\
  ((game.active g' = game.active g /\ game.game_over g' = game.game_over g) \/
   (game.active g' = None /\ game.game_over g' = true) \/
   (game.game_over g' = game.game_over g)).
Proof.
  rewrite spawn_unfold.
  destruct (game._next_tetromino g) as [[shape | e] g1] eqn:Hdraw;
    apply next_tetromino_same_core in Hdraw as (Hb & Hs & Ha & Ho).
  - destruct (tetromino.rotated shape 0) as [st | e].
    + destruct (game.blocks (spawned g1 st)) as [cells | e].
      * destruct (board.can_place (game.board g1) cells) as [[|] | e];
          intros H; inversion H; subst; simpl; intuition congruence.
      * intros H; inversion H; subst; intuition congruence.
    + intros H; inversion H; subst; intuition congruence.
  - destruct (game.is_StopIteration e); intros H; inversion H; subst; simpl;
      intuition congruence.
Qed.

Lemma spawn_status g r g' :
  game.game_over g = false ->
  game._spawn_next_piece g = (r, g') ->
  status_ok g'.
Proof.
  intros Hover Hspawn. apply spawn_cases in Hspawn as (_ & _ & Hcases).
  unfold status_ok. destruct Hcases as [[Ha Ho] | [[Ha Ho] | Ho]]; intros Hg'; congruence.
Qed.

(** *** Hard drop *)

Lemma fallen_zero g piece : game.active g = Some piece -> fallen 0 piece g = g.
Proof.
  intros Hact. destruct g as [b sm sequence rng bag act over]; simpl in Hact; subst act.
  destruct piece as [st [ox oy]], sm as [pm sc tl cs ap].
  unfold fallen, game.set_active, game.set_score_manager, scores.set_score; simpl.
  rewrite !Z.add_0_r. reflexivity.
Qed.

Lemma moved_fallen k piece g :
  moved 0 1
    (game.mkActivePiece (game.state piece)
       (fst (game.origin piece), snd (game.origin piece) + k))
    (fallen k piece g)
  = fallen (k + 1) piece g.
Proof.
  unfold moved, fallen, game.set_active, game.set_score_manager, scores.set_score; simpl.
  rewrite Z.add_0_r, !Z.add_assoc. reflexivity.
Qed.

Lemma hard_drop_loop_fallen fuel :
  forall k d0 piece g d g1,
    game.hard_drop_loop fuel d0 (fallen k piece g) = Some (Ok d, g1) ->
    d0 <= d /\ g1 = fallen (k + (d - d0)) piece g.
Proof.
  induction fuel as [| fuel IH]; intros k d0 piece g d g1 Hloop; simpl in Hloop.
  - discriminate.
  - destruct (game.move 0 1 (fallen k piece g)) as [[[|] | e] g2] eqn:Hmove.
    + apply move_success in Hmove as (piece' & Hact & _ & ->).
      simpl in Hact. inversion Hact; subst piece'; clear Hact.
      rewrite moved_fallen in Hloop. apply IH in Hloop as [Hle ->].
      split; [lia |]. f_equal. lia.
    + apply move_false_same in Hmove as ->.
      inversion Hloop; subst. split; [lia |]. f_equal. lia.
    + discriminate.
Qed.

Lemma can_place_head b x y rest :
  board.can_place b ((x, y) :: rest) = Ok true ->
  0 <= x < board.width b /\ y < board.height b /\ board.can_place b rest = Ok true.
Proof.
  simpl.
  destruct (Z.ltb_spec x 0) as [Hx0 | Hx0]; [discriminate |].
  destruct (Z.geb_spec x (board.width b)) as [Hxw | Hxw]; [discriminate |]. simpl.
  destruct (Z.geb_spec y (board.height b)) as [Hyh | Hyh]; [discriminate |].
  destruct (y >=? 0).
  - destruct (getitem (board.grid b) y) as [row | e]; [| discriminate]. simpl.
    destruct (getitem row x) as [cell | e]; [| discriminate]. simpl.
    destruct (board.is_not_None cell); [discriminate |].
    intros Hrest. repeat split; auto; lia.
  - intros Hrest. repeat split; auto; lia.
Qed.



Lemma add_hard_drop_eq d sm :
  0 <= d ->
  scores.add_hard_drop d sm = (Ok tt, scores.set_score (scores.score sm + 2 * d) sm).
Proof.
  intros Hd. destruct (scores.add_hard_drop d sm) as [r sm'] eqn:Hrun.
  pose proof (add_hard_drop_score _ _ _ _ Hd Hrun) as ->. f_equal.
  unfold scores.add_hard_drop in Hrun. destruct (d <=? 0); inversion Hrun; reflexivity.
Qed.

Lemma lock_piece_unfold g :
  game.lock_piece g =
  match game.active g with
  | None => (Ok tt, g)
  | Some piece =>
      match game.blocks piece with
      | Raise e => (Raise e, g)
      | Ok cells =>
          let '(r1, b1) :=
            board.lock_piece cells
              (tetromino.name (tetromino.tetromino (game.state piece))) (game.board g) in
          match r1 with
          | Raise e => (Raise e, game.set_board b1 g)
          | Ok _ =>
              let '(r2, b2) := board.clear_full_lines b1 in
              match r2 with
              | Raise e => (Raise e, game.set_board b2 g)
              | Ok lines =>
                  let '(r3, sm) := scores.record_line_clear lines (game.score_manager g) in
                  match r3 with
                  | Raise e => (Raise e, game.set_score_manager sm (game.set_board b2 g))
                  | Ok _ =>
                      game._spawn_next_piece
                        (game.set_active None
                           (game.set_score_manager sm (game.set_board b2 g)))
                  end
              end
          end
      end
  end.
Proof.
  unfold game.lock_piece, bind, get. simpl.
  destruct (game.active g) as [piece |]; [| reflexivity].
  unfold lift. destruct (game.blocks piece) as [cells | e]; [| reflexivity].
  unfold zoom.
  destruct (board.lock_piece cells _ (game.board g)) as [[[] | e] b1]; [| reflexivity].
  simpl. destruct (board.clear_full_lines b1) as [[lines | e] b2]; [| reflexivity].
  simpl. destruct (scores.record_line_clear lines (game.score_manager g)) as [[gained | e] sm];
    reflexivity.
Qed.

(** C1, as the code has it: in a game with an active piece, a hard drop
    whose loop travels [d] cells and whose lock clears no line raises the
    score by exactly [3 * d]: each of the [d] downward moves credits the
    soft-drop point of [move], which brings the score to [score + d]
    when the loop ends, and [add_hard_drop] then adds [2 * d]; the lock
    itself adds nothing.  The piece locked is the active piece [d] rows
    lower. *)
Theorem hard_drop_score (fuel : nat) (g g1 : game.Game) (piece landed : game.ActivePiece)
    (d : Z) (cells : list Coordinate) (b1 b2 : board.Board) :
  game.active g = Some piece ->
  game.game_over g = false ->
  game.hard_drop_loop fuel 0 g = Some (Ok d, g1) ->
  game.active g1 = Some landed ->
  game.blocks landed = Ok cells ->
  board.lock_piece cells (tetromino.name (tetromino.tetromino (game.state landed)))
    (game.board g1) = (Ok tt, b1) ->
  board.clear_full_lines b1 = (Ok 0, b2) ->
  exists r g',
    game.hard_drop fuel g = Some (r, g') /\
    scores.score (game.score_manager g') = scores.score (game.score_manager g) + 3 * d /\
    scores.score (game.score_manager g1) = scores.score (game.score_manager g) + d /\
    0 <= d /\
    landed = game.mkActivePiece (game.state piece)
               (fst (game.origin piece), snd (game.origin piece) + d) /\
    scores.total_lines (game.score_manager g') = scores.total_lines (game.score_manager g) /\
    game.board g' = b2.
Proof.
  intros Hact Hover Hloop Hlanded Hcells Hlock Hclear.
  pose proof Hloop as Hfall.
  rewrite <- (fallen_zero g piece Hact) in Hfall.
  apply hard_drop_loop_fallen in Hfall as [Hd Hg1].
  replace (0 + (d - 0)) with d in Hg1 by lia.
  destruct (game.hard_drop fuel g) as [[r g'] |] eqn:Hdrop.
  - exists r, g'. split; [reflexivity |].
    unfold game.hard_drop in Hdrop. rewrite Hact, Hover, Hloop in Hdrop.
    unfold bind, zoom in Hdrop. rewrite add_hard_drop_eq in Hdrop by lia.
    remember (game.set_score_manager
                (scores.set_score (scores.score (game.score_manager g1) + 2 * d)
                   (game.score_manager g1)) g1) as g2 eqn:Hg2.
    assert (Hact2 : game.active g2 = Some landed) by (subst g2; exact Hlanded).
    assert (Hboard2 : game.board g2 = game.board g1) by (subst g2; reflexivity).
    rewrite lock_piece_unfold, Hact2, Hcells, Hboard2, Hlock, Hclear in Hdrop.
    rewrite record_line_clear_nonpos in Hdrop by lia.
    inversion Hdrop as [Hspawn]; clear Hdrop.
    apply spawn_cases in Hspawn as (Hboard & Hsm & _).
    rewrite Hsm, Hboard. subst g2 g1. simpl in Hlanded. inversion Hlanded; subst landed.
    simpl. repeat split; try reflexivity; lia.
  - exfalso. unfold game.hard_drop in Hdrop. rewrite Hact, Hover, Hloop in Hdrop.
    discriminate.
Qed.

Lemma hard_drop_score_witness :
  exists r g',
    game.hard_drop 30 started_game = Some (r, g') /\
    scores.score (game.score_manager g')
    = scores.score (game.score_manager started_game) + 3 * 18.
Proof.
  edestruct (hard_drop_score 30 started_game) as (r & g' & Hdrop & Hscore & _).
  - vm_compute; reflexivity.
  - vm_compute; reflexivity.
  - vm_compute; reflexivity.
  - vm_compute; reflexivity.
  - vm_compute; reflexivity.
  - vm_compute; reflexivity.
  - vm_compute; reflexivity.
  - exists r, g'. split; [exact Hdrop | exact Hscore].
Defined.

(** C1 as stated fails: on the started game the hard drop travels 18
    cells, its lock clears no line, and the score goes from 0 to 54, not
    to 36. *)
Lemma hard_drop_two_points_counterexample :
  exists g1 landed cells b1 b2 g',
    game.active started_game <> None /\
    game.game_over started_game = false /\
    game.hard_drop_loop 30 0 started_game = Some (Ok 18, g1) /\
    game.active g1 = Some landed /\
    game.blocks landed = Ok cells /\
    board.lock_piece cells (tetromino.name (tetromino.tetromino (game.state landed)))
      (game.board g1) = (Ok tt, b1) /\
    board.clear_full_lines b1 = (Ok 0, b2) /\
    game.hard_drop 30 started_game = Some (Ok tt, g') /\
    scores.score (game.score_manager started_game) = 0 /\
    scores.score (game.score_manager g') = 54 /\
    scores.score (game.score_manager g')
    <> scores.score (game.score_manager started_game) + 2 * 18.
Proof.
  eexists _, _, _, _, _, _.
  split; [vm_compute; discriminate |].
  split; [vm_compute; reflexivity |].
  split; [vm_compute; reflexivity |].
  split; [vm_compute; reflexivity |].
  split; [vm_compute; reflexivity |].
  split; [vm_compute; reflexivity |].
  split; [vm_compute; reflexivity |].
  split; [vm_compute; reflexivity |].
  split; [vm_compute; reflexivity |].
  split; [vm_compute; reflexivity |].
  vm_compute. discriminate.
Qed.

(** *** Spawning *)

Lemma getitem_in_range {A} (l : list A) i :
  0 <= i < Z.of_nat (length l) ->
  exists x, getitem l i = Ok x /\ In x l.
Proof.
  intros Hi. unfold getitem, index.
  destruct (Z.ltb_spec i 0) as [Hneg | _]; [lia |].
  destruct (Z.leb_spec 0 i) as [_ | Hneg]; [| lia].
  destruct (Z.ltb_spec i (Z.of_nat (length l))) as [_ | Hbig]; [| lia].
  simpl. destruct (l !! Z.to_nat i) as [x |] eqn:Hlook.
  - exists x. split; [reflexivity |].
    apply list_elem_of_In. eapply list_elem_of_lookup_2. eassumption.
  - apply lookup_ge_None in Hlook. lia.
Qed.

Lemma can_place_total b cells :
  well_formed b -> exists verdict, board.can_place b cells = Ok verdict.
Proof.
  intros [Hrows Hcols]. induction cells as [| [x y] rest IH]; simpl; [eauto |].
  destruct (Z.ltb_spec x 0) as [Hx0 | Hx0]; [eauto |].
  destruct (Z.geb_spec x (board.width b)) as [Hxw | Hxw]; [eauto |]. simpl.
  destruct (Z.geb_spec y (board.height b)) as [Hyh | Hyh]; [eauto |].
  destruct (Z.geb_spec y 0) as [Hy0 | Hy0]; [| exact IH].
  destruct (getitem_in_range (board.grid b) y) as (row & -> & Hrow); [lia |]. simpl.
  rewrite Forall_forall in Hcols. apply list_elem_of_In, Hcols in Hrow.
  destruct (getitem_in_range row x) as (cell & -> & _); [lia |]. simpl.
  destruct (board.is_not_None cell); eauto.
Qed.

Lemma can_place_true_free b cells :
  board.can_place b cells = Ok true ->
  forall x y row,
    In (x, y) cells -> 0 <= y -> getitem (board.grid b) y = Ok row ->
    getitem row x = Ok None.
Proof.
  induction cells as [| [x0 y0] rest IH]; intros Hplace x y row Hin Hy Hrow.
  - destruct Hin.
  - pose proof (can_place_head _ _ _ _ Hplace) as (_ & _ & Hrest).
    destruct Hin as [Heq | Hin]; [| eapply IH; eassumption].
    inversion Heq; subst x0 y0; clear Heq.
    simpl in Hplace.
    destruct ((x <? 0) || (x >=? board.width b)); [discriminate |].
    destruct (y >=? board.height b); [discriminate |].
    destruct (Z.geb_spec y 0) as [_ | Hneg]; [| lia].
    rewrite Hrow in Hplace. simpl in Hplace.
    destruct (getitem row x) as [[v |] | e] eqn:Hcell; simpl in Hplace;
      first [reflexivity | discriminate].
Qed.

Lemma rotation_blocks_zero shape offsets :
  rotation_blocks shape 0 = Ok offsets ->
  tetromino.rotated shape 0 = Ok (tetromino.mkTetrominoState shape 0) /\
  tetromino.blocks (tetromino.mkTetrominoState shape 0) = Ok offsets.
Proof.
  unfold rotation_blocks, tetromino.rotated.
  destruct (Z.eqb_spec (Z.of_nat (length (tetromino.rotations shape))) 0) as [Hz | Hnz];
    [discriminate |].
  rewrite Z.mod_0_l by exact Hnz. simpl. auto.
Qed.

Lemma spawn_after_draw g g1 shape offsets :
  game._next_tetromino g = (Ok shape, g1) ->
  rotation_blocks shape 0 = Ok offsets ->
  game._spawn_next_piece g =
  match board.can_place (game.board g)
          (game.at_origin (board.width (game.board g) / 2, 0) offsets) with
  | Raise e => (Raise e, g1)
  | Ok false => (Ok tt, lost g1)
  | Ok true =>
      (Ok tt,
       game.set_active
         (Some (game.mkActivePiece (tetromino.mkTetrominoState shape 0)
                  (board.width (game.board g) / 2, 0))) g1)
  end.
Proof.
  intros Hdraw Hoff. apply rotation_blocks_zero in Hoff as [Hrot Hblocks].
  rewrite spawn_unfold, Hdraw, Hrot.
  apply next_tetromino_same_core in Hdraw as (Hboard & _).
  unfold game.blocks, spawned. simpl. rewrite Hblocks, Hboard. simpl. reflexivity.
Qed.

(** C6: once a shape is drawn, the spawn builds its rotation-0 state at
    the origin [(width // 2, 0)] (floor division); when the board
    refuses those cells the game ends in game over with no active piece,
    when it accepts them that piece becomes the active one and
    [game_over] is as before; the board is the same in both cases.  In
    particular, on a well-formed board whose cell [(width // 2, 0)] is
    occupied, the spawn of any shape of the catalog ends in game over
    with no active piece and the same board. *)
Theorem spawn_next_piece_spec (g g1 : game.Game) (shape : tetromino.Tetromino)
    (offsets : list Coordinate) :
  game._next_tetromino g = (Ok shape, g1) ->
  rotation_blocks shape 0 = Ok offsets ->
  let origin := (board.width (game.board g) / 2, 0) in
  let piece := game.mkActivePiece (tetromino.mkTetrominoState shape 0) origin in
  tetromino.rotated shape 0 = Ok (game.state piece) /\
  game.blocks piece = Ok (game.at_origin origin offsets) /\
  (board.can_place (game.board g) (game.at_origin origin offsets) = Ok false ->
   exists g',
     game._spawn_next_piece g = (Ok tt, g') /\
     game.game_over g' = true /\ game.active g' = None /\
     game.board g' = game.board g) /\
  (board.can_place (game.board g) (game.at_origin origin offsets) = Ok true ->
   exists g',
     game._spawn_next_piece g = (Ok tt, g') /\
     game.active g' = Some piece /\ game.game_over g' = game.game_over g /\
     game.board g' = game.board g) /\
  (well_formed (game.board g) ->
   In shape tetromino.ALL_TETROMINOES ->
   forall row v,
     getitem (board.grid (game.board g)) 0 = Ok row ->
     getitem row (board.width (game.board g) / 2) = Ok (Some v) ->
     exists g',
       game._spawn_next_piece g = (Ok tt, g') /\
       game.game_over g' = true /\ game.active g' = None /\
       game.board g' = game.board g).
Proof.
  intros Hdraw Hoff origin piece.
  pose proof (spawn_after_draw _ _ _ _ Hdraw Hoff) as Hspawn.
  pose proof (rotation_blocks_zero _ _ Hoff) as [Hrot Hblocks].
  pose proof (next_tetromino_same_core _ _ _ Hdraw) as (Hboard & _ & _ & Hover).
  fold origin in Hspawn.
  split; [exact Hrot |].
  split; [unfold game.blocks, piece; simpl; rewrite Hblocks; reflexivity |].
  split; [| split].
  - intros Hplace. rewrite Hplace in Hspawn. exists (lost g1). auto.
  - intros Hplace. rewrite Hplace in Hspawn. eexists. split; [exact Hspawn |]. auto.
  - intros Hwf Hin row v Hrow Hcell.
    destruct (can_place_total (game.board g) (game.at_origin origin offsets) Hwf)
      as [[|] Hplace].
    + exfalso.
      assert (Hzero : In (0, 0) offsets).
      { destruct (catalog_blocks shape 0 Hin) as (cells & Hcells & _ & Hzero).
        - pose proof (catalog_state_count shape Hin). lia.
        - rewrite Hblocks in Hcells. inversion Hcells; subst. exact Hzero. }
      assert (Hat : In (board.width (game.board g) / 2, 0) (game.at_origin origin offsets)).
      { unfold game.at_origin. apply in_map_iff. exists (0, 0). split; [| exact Hzero].
        unfold origin; simpl. f_equal; lia. }
      pose proof (can_place_true_free _ _ Hplace _ _ _ Hat ltac:(lia) Hrow) as Hfree.
      congruence.
    + rewrite Hplace in Hspawn. exists (lost g1). auto.
Qed.

Lemma spawn_next_piece_spec_witness :
  exists g',
    game._spawn_next_piece blocked_game = (Ok tt, g') /\
    game.game_over g' = true /\ game.active g' = None /\
    game.board g' = game.board blocked_game.
Proof.
  edestruct (spawn_next_piece_spec blocked_game) as (_ & _ & _ & _ & Hblocked).
  - vm_compute; reflexivity.
  - vm_compute; reflexivity.
  - eapply Hblocked.
    + split; [vm_compute; reflexivity | vm_compute; repeat constructor].
    + simpl; tauto.
    + vm_compute; reflexivity.
    + vm_compute; reflexivity.
Defined.


(** *** The status invariant *)

Lemma status_ok_same g g' :
  game.active g' = game.active g ->
  game.game_over g' = game.game_over g ->
  status_ok g -> status_ok g'.
Proof. unfold status_ok. intros -> ->. auto. Qed.

Lemma status_ok_running g : game.game_over g = false -> status_ok g.
Proof. unfold status_ok. congruence. Qed.

Lemma zoom_board_status {A} (m : M board.Board A) g r g' :
  zoom game.board game.set_board m g = (r, g') ->
  game.active g' = game.active g /\ game.game_over g' = game.game_over g.
Proof.
  unfold zoom. destruct (m (game.board g)) as [r0 b].
  intros H; inversion H; subst; simpl; auto.
Qed.

Lemma zoom_score_status {A} (m : M scores.ScoreManager A) g r g' :
  zoom game.score_manager game.set_score_manager m g = (r, g') ->
  game.active g' = game.active g /\ game.game_over g' = game.game_over g.
Proof.
  unfold zoom. destruct (m (game.score_manager g)) as [r0 sm].
  intros H; inversion H; subst; simpl; auto.
Qed.

Lemma move_status dx dy g r g' :
  status_ok g -> game.move dx dy g = (r, g') -> status_ok g'.
Proof.
  intros Hok Hmove. destruct r as [[|] | e].
  - apply move_success in Hmove as (piece & _ & Hover & ->).
    apply status_ok_running. unfold moved. destruct (dy >? 0); exact Hover.
  - apply move_false_same in Hmove as ->. exact Hok.
  - apply move_raise_unchanged in Hmove as ->. exact Hok.
Qed.

Lemma rotate_status clockwise g r g' :
  status_ok g -> game.rotate clockwise g = (r, g') -> status_ok g'.
Proof.
  intros Hok. unfold game.rotate, bind, get, lift. simpl.
  destruct (game.active g) as [piece |]; [| unchanged Hok].
  destruct (game.game_over g) eqn:Hover; [unchanged Hok |].
  destruct (tetromino.rotated _ _) as [new_state | e];
    [| unchanged Hok].
  destruct (tetromino.blocks new_state) as [offsets | e];
    [| unchanged Hok].
  destruct (board.can_place _ _) as [[|] | e]; simpl;
    intros H; inversion H; subst; try exact Hok.
  apply status_ok_running. exact Hover.
Qed.

Lemma lock_piece_status g r g' :
  status_ok g -> game.lock_piece g = (r, g') -> status_ok g'.
Proof.
  intros Hok. rewrite lock_piece_unfold.
  destruct (game.active g) as [piece |] eqn:Hact; [| unchanged Hok].
  assert (Hover : game.game_over g = false).
  { destruct (game.game_over g) eqn:Hover; [| reflexivity].
    specialize (Hok Hover). congruence. }
  destruct (game.blocks piece) as [cells | e]; [| unchanged Hok].
  destruct (board.lock_piece cells _ (game.board g)) as [[[] | e] b1];
    [| still_running Hover].
  destruct (board.clear_full_lines b1) as [[lines | e] b2];
    [| still_running Hover].
  destruct (scores.record_line_clear lines (game.score_manager g)) as [[gained | e] sm];
    [| still_running Hover].
  intros Hspawn. eapply spawn_status; [| exact Hspawn]. exact Hover.
Qed.

Lemma tick_status g r g' :
  status_ok g -> game.tick g = (r, g') -> status_ok g'.
Proof.
  intros Hok. unfold game.tick, bind, get. simpl.
  destruct (game.active g) as [piece |]; [| unchanged Hok].
  destruct (game.game_over g); [unchanged Hok |].
  destruct (game.move 0 1 g) as [[[|] | e] g1] eqn:Hmove;
    pose proof (move_status _ _ _ _ _ Hok Hmove) as Hok1; simpl.
  - unchanged Hok1.
  - apply lock_piece_status. exact Hok1.
  - unchanged Hok1.
Qed.

Lemma hard_drop_loop_status fuel :
  forall d0 g res g1,
    status_ok g -> game.hard_drop_loop fuel d0 g = Some (res, g1) -> status_ok g1.
Proof.
  induction fuel as [| fuel IH]; intros d0 g res g1 Hok; simpl; [discriminate |].
  destruct (game.move 0 1 g) as [[[|] | e] g2] eqn:Hmove;
    pose proof (move_status _ _ _ _ _ Hok Hmove) as Hok2.
  - apply IH. exact Hok2.
  - unchanged Hok2.
  - unchanged Hok2.
Qed.

Lemma hard_drop_status fuel g r g' :
  status_ok g -> game.hard_drop fuel g = Some (r, g') -> status_ok g'.
Proof.
  intros Hok. unfold game.hard_drop.
  destruct (game.active g) as [piece |]; [| unchanged Hok].
  destruct (game.game_over g); [unchanged Hok |].
  destruct (game.hard_drop_loop fuel 0 g) as [[[distance | e] g1] |] eqn:Hloop;
    [| intros H; inversion H; subst; eapply hard_drop_loop_status; eassumption
     | discriminate].
  apply hard_drop_loop_status in Hloop; [| exact Hok].
  intros H; inversion H as [Hrun]; clear H.
  apply bind_inv in Hrun as [(a & g2 & Hbonus & Hlock) | (e & Hbonus & _)];
    apply zoom_score_status in Hbonus as [Hact Hover].
  - eapply lock_piece_status; [| exact Hlock]. eapply status_ok_same; eassumption.
  - eapply status_ok_same; eassumption.
Qed.

Lemma start_status profile_name g r g' :
  status_ok g -> game.start profile_name g = (r, g') -> status_ok g'.
Proof.
  intros Hok Hrun. unfold game.start in Hrun.
  apply bind_inv in Hrun as [(a1 & g1 & Hreset & Hrun) | (e & Hreset & _)];
    apply zoom_board_status in Hreset as [Hact1 Hover1];
    [| eapply status_ok_same; eassumption].
  apply bind_inv in Hrun as [(a2 & g2 & Hscore & Hrun) | (e & Hscore & _)];
    apply zoom_score_status in Hscore as [Hact2 Hover2];
    [| apply (status_ok_same g); [congruence | congruence | exact Hok]].
  apply bind_inv in Hrun as [(a3 & g3 & Hattach & Hrun) | (e & Hattach & _)].
  - apply bind_inv in Hrun as [(a4 & g4 & Hbag & Hrun) | (e & Hbag & _)]; [| discriminate].
    apply bind_inv in Hrun as [(a5 & g5 & Hover & Hrun) | (e & Hover & _)]; [| discriminate].
    eapply spawn_status; [| exact Hrun].
    inversion Hover; subst. reflexivity.
  - assert (Hsame : game.active g' = game.active g2 /\ game.game_over g' = game.game_over g2).
    { destruct profile_name as [name |]; [| discriminate].
      destruct (scores.truthy (Some name)); [| discriminate].
      apply zoom_score_status in Hattach. exact Hattach. }
    destruct Hsame as [Hact3 Hover3].
    apply (status_ok_same g); [congruence | congruence | exact Hok].
Qed.

Lemma finalize_status now g r g' :
  status_ok g -> game.finalize now g = (r, g') -> status_ok g'.
Proof.
  intros Hok. unfold game.finalize, bind, get, game.try_except, zoom. simpl.
  destruct (game.game_over g || negb (bool_decide (is_Some (game.active g))));
    [| unchanged Hok].
  destruct (scores.finalize now (game.score_manager g)) as [[snapshot | e] sm]; simpl.
  - intros H; inversion H; subst. exact Hok.
  - destruct (game.is_RuntimeError e); unchanged Hok.
Qed.

Lemma run_op_status o g g' : status_ok g -> run_op o g g' -> status_ok g'.
Proof.
  intros Hok. destruct o; simpl.
  - intros [r Hrun]. eapply start_status; eassumption.
  - intros [r Hrun]. eapply move_status; eassumption.
  - intros [r Hrun]. eapply rotate_status; eassumption.
  - intros [r Hrun]. eapply tick_status; eassumption.
  - intros (fuel & r & Hrun). eapply hard_drop_status; eassumption.
  - intros [r Hrun]. eapply lock_piece_status; eassumption.
  - intros [r Hrun]. eapply finalize_status; eassumption.
Qed.

(** C7: in every state reached from a fresh [Game] by calls of [start],
    [move], [rotate], [tick], [hard_drop], [lock_piece] and [finalize],
    whether they return or raise, [game_over] being true implies that no
    piece is active. *)
Theorem game_over_no_active_piece (g : game.Game) :
  reachable g -> game.game_over g = true -> game.active g = None.
Proof.
  induction 1 as [b sm sequence rng | g o g' _ IH Hrun].
  - simpl. discriminate.
  - exact (run_op_status o g g' IH Hrun).
Qed.

Lemma game_over_no_active_piece_witness :
  exists g,
    reachable g /\ game.game_over g = true /\ game.active g = None.
Proof.
  eexists. 
  assert (Hreach : reachable played_out_game).
  { unfold played_out_game.
    eapply (reachable_step _ HardDrop).
    - eapply (reachable_step _ HardDrop).
      + eapply (reachable_step fresh_game (Start None)).
        * apply reachable_new.
        * exists (Ok tt). vm_compute; reflexivity.
      + exists 30%nat, (Ok tt). vm_compute; reflexivity.
    - exists 30%nat, (Ok tt). vm_compute; reflexivity. }
  assert (Hover : game.game_over played_out_game = true) by (vm_compute; reflexivity).
  split; [exact Hreach | split; [exact Hover |]].
  exact (game_over_no_active_piece _ Hreach Hover).
Defined.

(** ** The repository's tests, run on the embedding *)

Example test_piece_rotation_and_line_clear :
  (exists g1 g2,
     game.rotate true test_start = (Ok true, g1) /\
     (tetromino.rotation_index <$> (game.state <$> game.active g1)) = Some 1 /\
     game.rotate false g1 = (Ok true, g2) /\
     (tetromino.rotation_index <$> (game.state <$> game.active g2)) = Some 0) /\
  last (board.grid (game.board test_end)) = Some (replicate 10 None) /\
  scores.score (game.score_manager test_end) = 119 /\
  scores.total_lines (game.score_manager test_end) = 1.
Proof.
  split; [eexists _, _ |]; repeat (split; [vm_compute; reflexivity |]);
    vm_compute; reflexivity.
Qed.

Example test_profile_creation_and_persistence :
  exists manager manager',
    profiles.create_profile "Alice" "2024-01-01T00:00:00Z" (profiles.new None)
    = (Ok (profiles.mkProfile "Alice" "2024-01-01T00:00:00Z" None 0 0), manager) /\
    profiles.record_game "Alice" 1200 10 "2024-01-02T00:00:00Z" manager = (Ok tt, manager') /\
    (profiles.games_played <$> profiles.get_profile (profiles.new (profiles.data_file manager'))
                                 "Alice") = Some 1 /\
    (profiles.best_score <$> profiles.get_profile (profiles.new (profiles.data_file manager'))
                               "Alice") = Some 1200.
Proof.
  eexists _, _. repeat (split; [vm_compute; reflexivity |]). vm_compute; reflexivity.
Qed.

Example test_duplicate_profile_raises :
  exists manager e,
    profiles.create_profile "Bob" "2024-01-01T00:00:00Z" (profiles.new None)
    = (Ok (profiles.mkProfile "Bob" "2024-01-01T00:00:00Z" None 0 0), manager) /\
    profiles.create_profile "Bob" "2024-01-02T00:00:00Z" manager = (Raise (ValueError e), manager).
Proof.
  eexists _, _. split; vm_compute; reflexivity.
Qed.

(** ** Further properties of tetromino.py *)

(** X1: a shape without rotation states makes [rotated] raise
    [ZeroDivisionError]; for any other shape and any integer index,
    negative ones included, [rotated] returns a state of that shape whose
    index lies between 0 and the number of states, so that its [blocks]
    are defined and are the rotation state at that index. *)
Theorem rotated_index_in_range (shape : tetromino.Tetromino) (idx : Z) :
  (tetromino.rotations shape = [] ->
   tetromino.rotated shape idx = Raise ZeroDivisionError) /\
  (tetromino.rotations shape <> [] ->
   exists st cells,
     tetromino.rotated shape idx = Ok st /\
     tetromino.tetromino st = shape /\
     0 <= tetromino.rotation_index st < state_count shape /\
     tetromino.blocks st = Ok cells /\
     tetromino.rotations shape !! Z.to_nat (tetromino.rotation_index st) = Some cells).
Proof.
  split.
  - intros Hnil. unfold tetromino.rotated. rewrite Hnil. reflexivity.
  - intros Hne.
    assert (Hpos : 0 < state_count shape).
    { unfold state_count. destruct (tetromino.rotations shape); [congruence | simpl; lia]. }
    rewrite rotated_ok by lia.
    pose proof (Z.mod_pos_bound idx (state_count shape) Hpos) as Hrange.
    destruct (getitem_in_range (tetromino.rotations shape) (idx mod state_count shape))
      as (cells & Hget & _); [exact Hrange |].
    exists (tetromino.mkTetrominoState shape (idx mod state_count shape)), cells.
    split; [reflexivity | split; [reflexivity | split; [exact Hrange | split]]].
    + exact Hget.
    + simpl. unfold getitem, index in Hget.
      destruct (Z.ltb_spec (idx mod state_count shape) 0) as [Hneg | _]; [lia |].
      destruct ((0 <=? idx mod state_count shape)
                && (idx mod state_count shape
                    <? Z.of_nat (length (tetromino.rotations shape)))); [| discriminate].
      simpl in Hget.
      destruct (tetromino.rotations shape !! Z.to_nat (idx mod state_count shape));
        [congruence | discriminate].
Qed.

Lemma rotated_index_in_range_witness :
  exists st cells,
    tetromino.rotated tetromino.T (-1) = Ok st /\
    tetromino.tetromino st = tetromino.T /\
    0 <= tetromino.rotation_index st < state_count tetromino.T /\
    tetromino.blocks st = Ok cells /\
    tetromino.rotations tetromino.T !! Z.to_nat (tetromino.rotation_index st) = Some cells.
Proof.
  apply (proj2 (rotated_index_in_range tetromino.T (-1))). vm_compute. discriminate.
Defined.

(** ** Further properties of board.py *)

Lemma getitem_nonneg {A} (l : list A) i :
  0 <= i ->
  getitem l i = match l !! Z.to_nat i with
                | Some x => Ok x
                | None => Raise IndexError
                end.
Proof.
  intros Hi. unfold getitem, index.
  destruct (Z.ltb_spec i 0) as [Hneg | _]; [lia |].
  destruct (Z.leb_spec 0 i) as [_ | Hneg]; [| lia].
  destruct (Z.ltb_spec i (Z.of_nat (length l))) as [Hlt | Hge]; simpl.
  - reflexivity.
  - rewrite (lookup_ge_None_2 l (Z.to_nat i)) by lia. reflexivity.
Qed.

Lemma setitem_nonneg {A} (l : list A) i v :
  0 <= i ->
  setitem l i v = if i <? Z.of_nat (length l) then Ok (<[Z.to_nat i := v]> l)
                  else Raise IndexError.
Proof.
  intros Hi. unfold setitem, index.
  destruct (Z.ltb_spec i 0) as [Hneg | _]; [lia |].
  destruct (Z.leb_spec 0 i) as [_ | Hneg]; [| lia].
  destruct (i <? Z.of_nat (length l)); reflexivity.
Qed.

Lemma cell_nonneg b x y :
  0 <= x -> 0 <= y ->
  cell b x y = board.grid b !! Z.to_nat y ≫= (fun row => row !! Z.to_nat x).
Proof.
  intros Hx Hy. unfold cell.
  destruct (Z.ltb_spec x 0); [lia |]. destruct (Z.ltb_spec y 0); [lia |]. reflexivity.
Qed.

Lemma cell_in_bounds b x y :
  well_formed b ->
  (is_Some (cell b x y) <-> 0 <= x < board.width b /\ 0 <= y < board.height b).
Proof.
  intros [Hrows Hcols]. unfold cell.
  destruct (Z.ltb_spec x 0) as [Hx | Hx]; simpl.
  { split; [intros [c Hc]; discriminate | lia]. }
  destruct (Z.ltb_spec y 0) as [Hy | Hy]; simpl.
  { split; [intros [c Hc]; discriminate | lia]. }
  destruct (board.grid b !! Z.to_nat y) as [row |] eqn:Hrow; simpl.
  - pose proof (lookup_lt_Some _ _ _ Hrow) as Hlt.
    rewrite Forall_forall in Hcols.
    pose proof (Hcols row (list_elem_of_lookup_2 _ _ _ Hrow)) as Hlen.
    rewrite lookup_lt_is_Some. lia.
  - apply lookup_ge_None_1 in Hrow. split; [intros [c Hc]; discriminate | lia].
Qed.

(** Inside the grid, [set_cell] returns and changes that one cell. *)
Lemma set_cell_spec x y v b :
  well_formed b ->
  0 <= x < board.width b -> 0 <= y < board.height b ->
  exists b',
    board.set_cell x y v b = (Ok tt, b') /\
    well_formed b' /\
    board.width b' = board.width b /\ board.height b' = board.height b /\
    forall x' y',
      cell b' x' y' = if decide (x' = x /\ y' = y) then Some v else cell b x' y'.
Proof.
  intros Hwf Hx Hy. pose proof Hwf as [Hrows Hcols].
  destruct (lookup_lt_is_Some_2 (board.grid b) (Z.to_nat y)) as [row Hrow]; [lia |].
  assert (Hlen : Z.of_nat (length row) = board.width b).
  { rewrite Forall_forall in Hcols. apply Hcols. eapply list_elem_of_lookup_2. eassumption. }
  assert (Hrun : board.set_cell x y v b
                 = (Ok tt, board.set_grid
                             (<[Z.to_nat y := <[Z.to_nat x := v]> row]> (board.grid b)) b)).
  { unfold board.set_cell, bind, get, lift, modify. simpl.
    rewrite (getitem_nonneg (board.grid b) y) by lia. rewrite Hrow.
    rewrite (setitem_nonneg row x) by lia.
    destruct (Z.ltb_spec x (Z.of_nat (length row))) as [_ | Hbig]; [| lia].
    rewrite (setitem_nonneg (board.grid b) y) by lia.
    destruct (Z.ltb_spec y (Z.of_nat (length (board.grid b)))) as [_ | Hbig]; [| lia].
    reflexivity. }
  eexists. split; [exact Hrun |].
  destruct (set_cell_well_formed _ _ _ _ _ _ Hwf Hrun) as (Hwf' & Hw' & Hh').
  split; [exact Hwf' | split; [exact Hw' | split; [exact Hh' |]]].
  intros x' y'. unfold cell. simpl.
  destruct (Z.ltb_spec x' 0) as [Hx' | Hx']; simpl.
  { destruct (decide (x' = x /\ y' = y)) as [[-> _] | _]; [lia | reflexivity]. }
  destruct (Z.ltb_spec y' 0) as [Hy' | Hy']; simpl.
  { destruct (decide (x' = x /\ y' = y)) as [[_ ->] | _]; [lia | reflexivity]. }
  destruct (decide (y' = y)) as [-> | Hny].
  - rewrite list_lookup_insert_eq by lia. simpl.
    destruct (decide (x' = x)) as [-> | Hnx].
    + rewrite list_lookup_insert_eq by lia.
      destruct (decide (x = x /\ y = y)) as [_ | Hn]; [reflexivity | tauto].
    + rewrite list_lookup_insert_ne by lia. rewrite Hrow. simpl.
      destruct (decide (x' = x /\ y = y)) as [[Heq _] | _]; [contradiction | reflexivity].
  - rewrite list_lookup_insert_ne by lia.
    destruct (decide (x' = x /\ y' = y)) as [[_ Heq] | _]; [contradiction | reflexivity].
Qed.

(** The loop of [lock_piece], and of [reset], over coordinates that are
    in the grid or above it: it returns, and the cells written are those
    of the list that are in the grid. *)
Lemma write_cells_spec v cs :
  forall b,
    well_formed b -> Forall (lockable b) cs ->
    exists b',
      for_each cs (write_cell v) b = (Ok tt, b') /\
      well_formed b' /\
      board.width b' = board.width b /\ board.height b' = board.height b /\
      forall x y,
        cell b' x y = if decide ((x, y) ∈ cs /\ 0 <= y) then Some v else cell b x y.
Proof.
  induction cs as [| [x0 y0] cs IH]; intros b Hwf Hall.
  - exists b. split; [reflexivity |].
    split; [exact Hwf | split; [reflexivity | split; [reflexivity |]]].
    intros x y. destruct (decide ((x, y) ∈ [] /\ 0 <= y)) as [[Hin _] | _]; [| reflexivity].
    apply elem_of_nil in Hin. contradiction.
  - apply Forall_cons in Hall as [Hhead Hall]. cbn [for_each]. unfold bind.
    destruct (Z.ltb_spec y0 0) as [Hneg | Hpos].
    + unfold write_cell at 1. destruct (Z.ltb_spec y0 0) as [_ | Hge]; [| lia].
      simpl. destruct (IH b Hwf Hall) as (b' & Hrun & Hwf' & Hw & Hh & Hcell).
      exists b'. split; [exact Hrun |].
      split; [exact Hwf' | split; [exact Hw | split; [exact Hh |]]].
      intros x y. rewrite Hcell.
      destruct (decide ((x, y) ∈ cs /\ 0 <= y)) as [[Hin Hy] | Hn];
        destruct (decide ((x, y) ∈ (x0, y0) :: cs /\ 0 <= y)) as [[Hin' Hy'] | Hn'];
        try reflexivity.
      * exfalso. apply Hn'. split; [apply elem_of_cons; auto | exact Hy].
      * exfalso. apply elem_of_cons in Hin' as [Heq | Hin'];
          [inversion Heq; lia | apply Hn; auto].
    + destruct Hhead as [Hbad | [Hx Hy]]; [simpl in Hbad; lia |]. simpl in Hx, Hy.
      unfold write_cell at 1. destruct (Z.ltb_spec y0 0) as [Hlt | _]; [lia |].
      destruct (set_cell_spec x0 y0 v b Hwf Hx Hy) as (b1 & Hset & Hwf1 & Hw1 & Hh1 & Hcell1).
      rewrite Hset.
      destruct (IH b1 Hwf1) as (b' & Hrun & Hwf' & Hw & Hh & Hcell).
      { eapply Forall_impl; [exact Hall |]. intros c. unfold lockable. rewrite Hw1, Hh1. auto. }
      exists b'. split; [exact Hrun |].
      split; [exact Hwf' | split; [congruence | split; [congruence |]]].
      intros x y. rewrite Hcell, Hcell1.
      destruct (decide ((x, y) ∈ cs /\ 0 <= y)) as [[Hin Hy'] | Hn];
        destruct (decide ((x, y) ∈ (x0, y0) :: cs /\ 0 <= y)) as [[Hin' Hy''] | Hn'];
        try reflexivity.
      * exfalso. apply Hn'. split; [apply elem_of_cons; auto | exact Hy'].
      * apply elem_of_cons in Hin' as [Heq | Hin']; [| exfalso; apply Hn; auto].
        inversion Heq; subst.
        destruct (decide (x0 = x0 /\ y0 = y0)) as [_ | Hne]; [reflexivity | tauto].
      * destruct (decide (x = x0 /\ y = y0)) as [[-> ->] | _]; [| reflexivity].
        exfalso. apply Hn'. split; [apply elem_of_cons; auto | lia].
Qed.

Lemma can_place_lockable b cells :
  board.can_place b cells = Ok true -> Forall (lockable b) cells.
Proof.
  induction cells as [| [x y] rest IH]; intros Hplace; [constructor |].
  apply can_place_head in Hplace as (Hx & Hy & Hrest).
  constructor; [| auto].
  unfold lockable; simpl. destruct (Z.lt_ge_cases y 0); [left | right]; lia.
Qed.

(** X2: on a well-formed board, [lock_piece] given coordinates that are
    in the grid or above its top (in particular coordinates [can_place]
    has accepted) returns without raising; afterwards the cells of the
    list that are in the grid hold the value, whatever they held before,
    every other cell is as it was, and the board keeps its dimensions:
    coordinates above the top are dropped. *)
Theorem lock_piece_writes (cells : list Coordinate) (value : string) (b : board.Board) :
  well_formed b ->
  Forall (lockable b) cells ->
  exists b',
    board.lock_piece cells value b = (Ok tt, b') /\
    well_formed b' /\
    board.width b' = board.width b /\ board.height b' = board.height b /\
    forall x y,
      cell b' x y
      = if decide ((x, y) ∈ cells /\ 0 <= y) then Some (Some value) else cell b x y.
Proof.
  intros Hwf Hall. exact (write_cells_spec (Some value) cells b Hwf Hall).
Qed.

Lemma lock_piece_writes_witness :
  exists b',
    board.lock_piece [(0, -1); (0, 0); (1, 0)] "T" small_board = (Ok tt, b') /\
    cell b' 0 0 = Some (Some "T") /\ cell b' 1 0 = Some (Some "T") /\
    cell b' 0 1 = cell small_board 0 1.
Proof.
  destruct (lock_piece_writes [(0, -1); (0, 0); (1, 0)] "T" small_board)
    as (b' & Hrun & _ & _ & _ & Hcell).
  - split; [reflexivity | repeat constructor].
  - repeat constructor; unfold lockable; simpl; lia.
  - exists b'. split; [exact Hrun |].
    rewrite !Hcell. repeat split.
Defined.

Lemma getitem_cell b x y :
  well_formed b ->
  0 <= x < board.width b -> 0 <= y < board.height b ->
  exists row c,
    getitem (board.grid b) y = Ok row /\ getitem row x = Ok c /\ cell b x y = Some c.
Proof.
  intros Hwf Hx Hy.
  destruct (proj2 (cell_in_bounds b x y Hwf) (conj Hx Hy)) as [c Hc].
  rewrite cell_nonneg in Hc by lia.
  destruct (board.grid b !! Z.to_nat y) as [row |] eqn:Hrow; [| discriminate].
  simpl in Hc. exists row, c.
  rewrite getitem_nonneg, Hrow by lia. rewrite getitem_nonneg, Hc by lia.
  rewrite cell_nonneg, Hrow by lia. auto.
Qed.

Lemma can_place_legal (b : board.Board) (cells : list Coordinate) :
  well_formed b ->
  exists verdict,
    board.can_place b cells = Ok verdict /\
    (verdict = true <-> Forall (legal b) cells).
Proof.
  intros Hwf. induction cells as [| [x y] rest (verdict & Hrest & Hiff)].
  - exists true. split; [reflexivity |]. split; [constructor | reflexivity].
  - cbn [board.can_place].
    destruct (Z.ltb_spec x 0) as [Hx0 | Hx0]; cbn [orb].
    { exists false. split; [reflexivity |]. split; [discriminate |].
      intros Hall. inversion Hall as [| c l [Hx _]]; subst. simpl in Hx. lia. }
    destruct (Z.geb_spec x (board.width b)) as [Hxw | Hxw].
    { exists false. split; [reflexivity |]. split; [discriminate |].
      intros Hall. inversion Hall as [| c l [Hx _]]; subst. simpl in Hx. lia. }
    destruct (Z.geb_spec y (board.height b)) as [Hyh | Hyh].
    { exists false. split; [reflexivity |]. split; [discriminate |].
      intros Hall. inversion Hall as [| c l (_ & Hy & _)]; subst. simpl in Hy. lia. }
    destruct (Z.geb_spec y 0) as [Hy0 | Hy0].
    + destruct (getitem_cell b x y Hwf) as (row & c & -> & Hc & Hcell); [lia | lia |].
      cbn [and_then]. rewrite Hc. cbn [and_then].
      destruct c as [v |]; cbn [board.is_not_None].
      * exists false. split; [reflexivity |]. split; [discriminate |].
        intros Hall. inversion Hall as [| c l (_ & _ & Hfree)]; subst. simpl in Hfree.
        rewrite Hcell in Hfree. specialize (Hfree ltac:(lia)). discriminate.
      * exists verdict. split; [exact Hrest |]. rewrite Hiff. split.
        -- intros Hall. constructor; [| exact Hall].
           unfold legal; simpl. repeat split; try lia. intros _. exact Hcell.
        -- intros Hall. inversion Hall; subst. assumption.
    + exists verdict. split; [exact Hrest |]. rewrite Hiff. split.
      * intros Hall. constructor; [| exact Hall].
        unfold legal; simpl. repeat split; lia.
      * intros Hall. inversion Hall; subst. assumption.
Qed.

(** X3: on a well-formed board [can_place] never raises, and it returns
    [True] exactly when every coordinate lies between the side walls and
    above the floor and, unless it is above the top of the grid, on an
    empty cell. *)
Theorem can_place_spec (b : board.Board) (cells : list Coordinate) :
  well_formed b ->
  exists verdict,
    board.can_place b cells = Ok verdict /\
    (verdict = true <-> Forall (legal b) cells).
Proof. intros Hwf. exact (can_place_legal b cells Hwf). Qed.

Lemma can_place_spec_witness :
  exists verdict,
    board.can_place small_board [(0, -1); (0, 0); (0, 1)] = Ok verdict /\
    (verdict = true <-> Forall (legal small_board) [(0, -1); (0, 0); (0, 1)]).
Proof.
  apply (can_place_spec small_board). split; [reflexivity | repeat constructor].
Defined.

(** X4: on a well-formed board, [in_bounds] holds of exactly the
    coordinates at which the grid has a cell. *)
Theorem in_bounds_spec (b : board.Board) (x y : Z) :
  well_formed b ->
  (board.in_bounds b x y = true <-> is_Some (cell b x y)).
Proof.
  intros Hwf. rewrite (cell_in_bounds b x y Hwf). unfold board.in_bounds.
  rewrite !andb_true_iff, !Z.leb_le, !Z.ltb_lt. tauto.
Qed.

Lemma in_bounds_spec_witness :
  board.in_bounds small_board 1 2 = true <-> is_Some (cell small_board 1 2).
Proof.
  apply (in_bounds_spec small_board). split; [reflexivity | repeat constructor].
Defined.

Lemma for_each_app {St A} (l l' : list A) (body : A -> M St unit) s :
  for_each (l ++ l') body s = bind (for_each l body) (fun _ => for_each l' body) s.
Proof.
  revert s. induction l as [| x l IH]; intros s; simpl.
  - reflexivity.
  - unfold bind in *. destruct (body x s) as [[[] | e] s1]; [| reflexivity].
    apply IH.
Qed.

Lemma for_each_map {St A B} (f : A -> B) (l : list A) (body : B -> M St unit) s :
  for_each (map f l) body s = for_each l (fun x => body (f x)) s.
Proof.
  revert s. induction l as [| x l IH]; intros s; simpl; [reflexivity |].
  unfold bind. destruct (body (f x) s) as [[[] | e] s1]; [apply IH | reflexivity].
Qed.

Lemma elem_of_range n i : i ∈ range n <-> 0 <= i < n.
Proof.
  unfold range. rewrite list_elem_of_In, in_map_iff. split.
  - intros (k & <- & Hk). apply in_seq in Hk. lia.
  - intros Hi. exists (Z.to_nat i). split; [lia |]. apply in_seq. lia.
Qed.

(** The two loops of [reset] visit the cells of the grid row by row. *)
Lemma reset_rows (w : Z) (ys : list Z) s :
  Forall (fun y => 0 <= y) ys ->
  for_each ys (fun y => for_each (range w) (fun x => board.set_cell x y None)) s
  = for_each (concat (map (fun y => map (fun x => (x, y)) (range w)) ys))
      (write_cell None) s.
Proof.
  intros Hys. revert s. induction Hys as [| y ys Hy _ IH]; intros s; [reflexivity |].
  cbn [map concat for_each]. rewrite for_each_app. unfold bind.
  rewrite for_each_map.
  assert (Hrow : forall s0,
             for_each (range w) (fun x => write_cell None (x, y)) s0
             = for_each (range w) (fun x => board.set_cell x y None) s0).
  { intros s0. unfold write_cell. destruct (Z.ltb_spec y 0); [lia | reflexivity]. }
  rewrite Hrow.
  destruct (for_each (range w) (fun x => board.set_cell x y None) s) as [[[] | e] s1];
    [apply IH | reflexivity].
Qed.

Lemma board_ext b b' :
  well_formed b -> well_formed b' ->
  board.width b' = board.width b -> board.height b' = board.height b ->
  (forall x y, cell b' x y = cell b x y) ->
  b' = b.
Proof.
  intros [Hrows Hcols] [Hrows' Hcols'] Hw Hh Hcell.
  destruct b as [w h g], b' as [w' h' g']; simpl in *. rewrite Hw, Hh. f_equal.
  apply list_eq. intros j.
  destruct (g !! j) as [row |] eqn:Hrow.
  - pose proof (lookup_lt_Some _ _ _ Hrow) as Hj.
    destruct (lookup_lt_is_Some_2 g' j) as [row' Hrow']; [lia |].
    rewrite Hrow'. f_equal. apply list_eq. intros i.
    specialize (Hcell (Z.of_nat i) (Z.of_nat j)).
    rewrite !cell_nonneg in Hcell by lia. simpl in Hcell.
    rewrite !Nat2Z.id, Hrow, Hrow' in Hcell. exact Hcell.
  - apply lookup_ge_None_1 in Hrow. apply lookup_ge_None_2. lia.
Qed.

Lemma new_of_well_formed b :
  well_formed b -> well_formed (board.new (board.width b) (board.height b)).
Proof.
  intros [Hrows Hcols]. unfold well_formed, board.new; simpl. split.
  - rewrite length_replicate. lia.
  - apply Forall_forall. intros row Hrow. apply elem_of_replicate in Hrow as [-> Hne].
    rewrite length_replicate.
    destruct (board.grid b) as [| row0 rows]; [simpl in *; lia |].
    inversion Hcols; subst. lia.
Qed.

Lemma cell_new w h x y :
  cell (board.new w h) x y
  = if decide ((0 <= x < w) /\ (0 <= y < h)) then Some None else None.
Proof.
  unfold cell, board.new; simpl.
  destruct (Z.ltb_spec x 0) as [Hx | Hx]; simpl.
  { destruct (decide _) as [[? ?] | _]; [lia | reflexivity]. }
  destruct (Z.ltb_spec y 0) as [Hy | Hy]; simpl.
  { destruct (decide _) as [[? ?] | _]; [lia | reflexivity]. }
  destruct (decide _) as [[Hxw Hyh] | Hout].
  - rewrite lookup_replicate_2 by lia. simpl. rewrite lookup_replicate_2 by lia. reflexivity.
  - destruct (Z.lt_ge_cases y h) as [Hyh | Hyh].
    + rewrite lookup_replicate_2 by lia. simpl.
      apply lookup_replicate_None. lia.
    + replace (replicate (Z.to_nat h) (replicate (Z.to_nat w) None) !! Z.to_nat y)
        with (@None (list (option string))); [reflexivity |].
      symmetry. apply lookup_replicate_None. lia.
Qed.

Lemma reset_run (b : board.Board) :
  well_formed b ->
  board.reset b = (Ok tt, board.new (board.width b) (board.height b)).
Proof.
  intros Hwf.
  assert (Hloops : board.reset b
                   = for_each
                       (concat (map (fun y => map (fun x => (x, y)) (range (board.width b)))
                                  (range (board.height b))))
                       (write_cell None) b).
  { unfold board.reset, bind, get. simpl. apply reset_rows.
    apply Forall_forall. intros y Hy. apply elem_of_range in Hy. lia. }
  destruct (write_cells_spec None
              (concat (map (fun y => map (fun x => (x, y)) (range (board.width b)))
                         (range (board.height b)))) b Hwf)
    as (b' & Hrun & Hwf' & Hw & Hh & Hcell).
  { apply Forall_forall. intros [x y] Hin.
    apply list_elem_of_In, in_concat in Hin as (row & Hrow & Hin).
    apply in_map_iff in Hrow as (y0 & <- & Hy0).
    apply in_map_iff in Hin as (x0 & Heq & Hx0). inversion Heq; subst.
    apply list_elem_of_In, elem_of_range in Hy0.
    apply list_elem_of_In, elem_of_range in Hx0. right. simpl. lia. }
  rewrite Hloops, Hrun. f_equal.
  apply board_ext; [apply new_of_well_formed; exact Hwf | exact Hwf' | exact Hw | exact Hh |].
  intros x y. rewrite Hcell, cell_new.
  destruct (decide ((0 <= x < board.width b) /\ (0 <= y < board.height b))) as [[Hx Hy] | Hout].
  - destruct (decide _) as [_ | Hn]; [reflexivity |].
    exfalso. apply Hn. split; [| lia].
    apply list_elem_of_In, in_concat.
    exists (map (fun x0 => (x0, y)) (range (board.width b))). split.
    + apply in_map_iff. exists y. split; [reflexivity |].
      apply list_elem_of_In, elem_of_range. lia.
    + apply in_map_iff. exists x. split; [reflexivity |].
      apply list_elem_of_In, elem_of_range. lia.
  - destruct (decide _) as [[Hin Hy] | _].
    + exfalso. apply Hout.
      apply list_elem_of_In, in_concat in Hin as (row & Hrow & Hin).
      apply in_map_iff in Hrow as (y0 & <- & Hy0).
      apply in_map_iff in Hin as (x0 & Heq & Hx0). inversion Heq; subst.
      apply list_elem_of_In, elem_of_range in Hy0.
      apply list_elem_of_In, elem_of_range in Hx0. lia.
    + destruct (cell b x y) as [c |] eqn:Hc; [| reflexivity].
      exfalso. apply Hout. apply (cell_in_bounds b x y Hwf). eauto.
Qed.

(** X5: on a well-formed board [reset] returns without raising and
    leaves the board [Board(width, height)] builds: the same dimensions
    and every cell empty. *)
Theorem reset_empties (b : board.Board) :
  well_formed b ->
  board.reset b = (Ok tt, board.new (board.width b) (board.height b)).
Proof. intros Hwf. exact (reset_run b Hwf). Qed.

Lemma reset_empties_witness :
  board.reset small_board = (Ok tt, board.new 2 3).
Proof.
  apply (reset_empties small_board). split; [reflexivity | repeat constructor].
Defined.

Lemma clear_full_lines_run b :
  Z.of_nat (length (board.grid b)) = board.height b ->
  exists n,
    length (board.grid b) = (n + length (List.filter board.any_None (board.grid b)))%nat /\
    board.clear_full_lines b
    = (Ok (Z.of_nat n),
       board.set_grid
         (replicate n (empty_row b) ++ List.filter board.any_None (board.grid b)) b).
Proof.
  intros Hrows. destruct (filter_cleared_rows (board.grid b)) as (n & Hc & Hlen).
  exists n. split; [exact Hlen |].
  unfold board.clear_full_lines, bind, get, modify, ret; simpl.
  replace (board.height b - Z.of_nat (length (List.filter board.any_None (board.grid b))))
    with (Z.of_nat n) by lia.
  destruct (Z.eqb_spec (Z.of_nat n) 0) as [Hz | Hz].
  - assert (n = 0%nat) by lia; subst n. simpl.
    rewrite (cleared_rows_zero _ _ Hc), set_grid_same. reflexivity.
  - rewrite Nat2Z.id. reflexivity.
Qed.

Lemma filter_all_true {A} (f : A -> bool) l :
  Forall (fun x => f x = true) l -> List.filter f l = l.
Proof.
  induction 1 as [| x l Hx _ IH]; simpl; [reflexivity |]. rewrite Hx, IH. reflexivity.
Qed.

(** X6: on a well-formed board of positive width, the board
    [clear_full_lines] leaves has no full row, so that a second call
    returns 0 and changes nothing; on a well-formed board of width 0
    every row counts as full: the call returns [height] and the board is
    as before, every time. *)
Theorem clear_full_lines_again (b : board.Board) :
  well_formed b ->
  (0 < board.width b ->
   forall n b1,
     board.clear_full_lines b = (Ok n, b1) ->
     0 <= n <= board.height b /\
     Forall (fun row => ~ row_full row) (board.grid b1) /\
     board.clear_full_lines b1 = (Ok 0, b1)) /\
  (board.width b = 0 -> board.clear_full_lines b = (Ok (board.height b), b)).
Proof.
  intros Hwf. pose proof Hwf as [Hrows Hcols].
  destruct (clear_full_lines_run b Hrows) as (k & Hlen & Hrun).
  split.
  - intros Hw n b1 Hrun1. rewrite Hrun in Hrun1. inversion Hrun1; subst n b1; clear Hrun1.
    assert (Hall : Forall (fun row => board.any_None row = true)
                     (replicate k (empty_row b)
                      ++ List.filter board.any_None (board.grid b))).
    { apply Forall_app. split.
      - apply Forall_forall. intros row Hrow. apply elem_of_replicate in Hrow as [-> _].
        unfold empty_row. destruct (Z.to_nat (board.width b)) as [| m] eqn:Hm; [lia |].
        reflexivity.
      - apply Forall_forall. intros row Hrow.
        apply list_elem_of_In, filter_In in Hrow as [_ Hrow]. exact Hrow. }
    split; [lia | split].
    + simpl. eapply Forall_impl; [exact Hall |]. intros row Hrow.
      apply any_None_true. exact Hrow.
    + destruct (clear_full_lines_well_formed _ _ _ Hwf Hrun) as ([Hrows1 _] & _ & Hh1).
      destruct (clear_full_lines_run _ Hrows1) as (k1 & Hlen1 & Hrun1).
      rewrite Hrun1. simpl in Hlen1 |- *.
      rewrite (filter_all_true _ _ Hall) in Hlen1 |- *.
      assert (k1 = 0%nat) by lia. subst k1. reflexivity.
  - intros Hw.
    assert (Hempty : Forall (fun row => row = []) (board.grid b)).
    { eapply Forall_impl; [exact Hcols |]. intros row Hrow.
      destruct row; [reflexivity | simpl in Hrow; lia]. }
    assert (Hnone : List.filter board.any_None (board.grid b) = []).
    { clear -Hempty. induction Hempty as [| row rows -> _ IH]; simpl; auto. }
    rewrite Hrun. rewrite Hnone in Hlen |- *. f_equal; [f_equal; simpl in Hlen; lia |].
    rewrite app_nil_r. simpl in Hlen. rewrite Nat.add_0_r in Hlen. subst k.
    unfold empty_row. rewrite Hw. simpl.
    replace (replicate (length (board.grid b)) []) with (board.grid b);
      [apply set_grid_same |].
    clear -Hempty. induction Hempty as [| row rows -> _ IH]; simpl; [reflexivity |].
    f_equal. exact IH.
Qed.

Lemma clear_full_lines_again_witness :
  exists n b1,
    board.clear_full_lines small_board = (Ok n, b1) /\
    board.clear_full_lines b1 = (Ok 0, b1).
Proof.
  assert (Hwf : well_formed small_board) by (split; [reflexivity | repeat constructor]).
  assert (Hrun : board.clear_full_lines small_board
                 = (Ok 1, board.mkBoard 2 3 [[None; None]; [None; Some "T"]; [None; None]]))
    by reflexivity.
  eexists _, _. split; [exact Hrun |].
  apply (proj1 (clear_full_lines_again small_board Hwf) ltac:(simpl; lia) _ _ Hrun).
Defined.





(** ** Further properties of profiles.py *)

(** X8: [create_profile] returns a profile exactly when the name is not
    yet a key of the profiles mapping; otherwise it raises the
    already-exists [ValueError] and neither the document in memory nor
    the stored file changes. *)
Theorem create_profile_duplicate (name now : string)
    (pm pm' : profiles.ProfileManager) (r : result profiles.Profile) :
  profiles.create_profile name now pm = (r, pm') ->
  ((exists p, r = Ok p) <-> profiles.profiles (profiles._data pm) !! name = None) /\
  ((exists e, r = Raise e) ->
   r = Raise (ValueError ("Le profil '" +:+ name +:+ "' existe déjà")) /\ pm' = pm).
Proof.
  intros Hrun.
  destruct (profiles.profiles (profiles._data pm) !! name) as [d |] eqn:Hlook.
  - rewrite create_profile_taken in Hrun by (rewrite Hlook; eauto).
    inversion Hrun; subst. split.
    + split; [intros [p Hp]; discriminate | discriminate].
    + intros _. split; reflexivity.
  - unfold profiles.create_profile, bind, get in Hrun. simpl in Hrun.
    rewrite Hlook in Hrun.
    rewrite bool_decide_eq_false_2 in Hrun by (intros [d Hd]; discriminate).
    inversion Hrun; subst. split.
    + split; [reflexivity | eauto].
    + intros [e He]. discriminate.
Qed.

Lemma create_profile_duplicate_witness :
  exists e pm',
    profiles.create_profile "Alice" "2024-02-01T00:00:00Z" alice_store = (Raise e, pm') /\
    pm' = alice_store.
Proof.
  eexists _, _. split; [vm_compute; reflexivity |].
  refine (proj2 (proj2 (create_profile_duplicate "Alice" "2024-02-01T00:00:00Z"
                          alice_store _ _ _) _)).
  - vm_compute; reflexivity.
  - eexists. reflexivity.
Defined.




(** X10: after [create_profile name] has returned profile [p], looking
    [name] up gives [p], which has no game played, best score 0 and no
    last-played date; every other name is looked up as before; and the
    active profile is [p], unless [name] is the empty string, which
    [get_active_profile] takes for no active profile. *)
Theorem create_profile_lookup (name now : string)
    (pm pm' : profiles.ProfileManager) (p : profiles.Profile) :
  profiles.create_profile name now pm = (Ok p, pm') ->
  profiles.get_profile pm' name = Some p /\
  p = profiles.mkProfile name now None 0 0 /\
  (forall other, other <> name ->
     profiles.get_profile pm' other = profiles.get_profile pm other) /\
  profiles.get_active_profile pm' = (if decide (name = "") then None else Some p).
Proof.
  unfold profiles.create_profile, bind, get. simpl.
  destruct (bool_decide (is_Some (profiles.profiles (profiles._data pm) !! name)));
    simpl; intros H; inversion H; subst; clear H.
  assert (Hget : profiles.get_profile
                   (profiles.mkProfileManager
                      (profiles.mkData (Some name)
                         (<[name := profiles.to_dict (profiles.mkProfile name now None 0 0)]>
                            (profiles.profiles (profiles._data pm)))
                         (profiles.scores (profiles._data pm)))
                      (Some
                         (profiles.mkData (Some name)
                            (<[name := profiles.to_dict (profiles.mkProfile name now None 0 0)]>
                               (profiles.profiles (profiles._data pm)))
                            (profiles.scores (profiles._data pm))))) name
                 = Some (profiles.mkProfile name now None 0 0)).
  { unfold profiles.get_profile. simpl. rewrite lookup_insert_eq. reflexivity. }
  split; [exact Hget | split; [reflexivity | split]].
  - intros other Hother. unfold profiles.get_profile. simpl.
    rewrite lookup_insert_ne by congruence. reflexivity.
  - unfold profiles.get_active_profile. cbn [profiles._data profiles.active_profile].
    destruct (decide (name = "")) as [-> | Hne].
    + reflexivity.
    + rewrite bool_decide_eq_false_2 by exact Hne. exact Hget.
Qed.

Lemma create_profile_lookup_witness :
  exists p pm',
    profiles.create_profile "" "2024-01-01T00:00:00Z" (profiles.new None) = (Ok p, pm') /\
    profiles.get_profile pm' "" = Some p /\
    profiles.get_active_profile pm' = None.
Proof.
  eexists _, _. split; [vm_compute; reflexivity |].
  edestruct (create_profile_lookup "" "2024-01-01T00:00:00Z" (profiles.new None))
    as (Hget & _ & _ & Hactive).
  - vm_compute; reflexivity.
  - split; [exact Hget | exact Hactive].
Defined.

(** X11: [set_active_profile name] raises the unknown-profile
    [ValueError] and changes nothing when [name] has no profile;
    otherwise it returns the stored profile, sets the active name and
    saves, leaving profiles and scores untouched, and [get_active_profile]
    then gives that profile unless [name] is empty. *)
Theorem set_active_profile_spec (name : string) (pm pm' : profiles.ProfileManager)
    (r : result profiles.Profile) :
  profiles.set_active_profile name pm = (r, pm') ->
  (profiles.get_profile pm name = None ->
   r = Raise (ValueError ("Profil inconnu: " +:+ name)) /\ pm' = pm) /\
  (forall p, profiles.get_profile pm name = Some p ->
     r = Ok p /\
     profiles.active_profile (profiles._data pm') = Some name /\
     profiles.profiles (profiles._data pm') = profiles.profiles (profiles._data pm) /\
     profiles.scores (profiles._data pm') = profiles.scores (profiles._data pm) /\
     profiles.data_file pm' = Some (profiles._data pm') /\
     profiles.get_active_profile pm' = (if decide (name = "") then None else Some p)).
Proof.
  unfold profiles.set_active_profile, bind, get. simpl.
  destruct (profiles.get_profile pm name) as [p |] eqn:Hget;
    simpl; intros H; inversion H; subst; clear H.
  - split; [discriminate |]. intros q Hq. inversion Hq; subst q.
    repeat (split; [reflexivity |]).
    unfold profiles.get_active_profile. cbn [profiles._data profiles.active_profile].
    destruct (decide (name = "")) as [-> | Hne]; [reflexivity |].
    rewrite bool_decide_eq_false_2 by exact Hne. exact Hget.
  - split; [auto | discriminate].
Qed.

Lemma set_active_profile_spec_witness :
  profiles.get_profile alice_store "Bob" = None /\
  profiles.set_active_profile "Bob" alice_store
  = (Raise (ValueError "Profil inconnu: Bob"), alice_store).
Proof.
  assert (Hget : profiles.get_profile alice_store "Bob" = None) by (vm_compute; reflexivity).
  split; [exact Hget |].
  destruct (profiles.set_active_profile "Bob" alice_store) as [r pm'] eqn:Hrun.
  destruct (proj1 (set_active_profile_spec "Bob" alice_store pm' r Hrun) Hget) as [-> ->].
  reflexivity.
Defined.

(** *** The sort of [top_scores] *)

Lemma insert_reverse_perm {A} (key : A -> Z) x l :
  Permutation (insert_reverse key x l) (x :: l).
Proof.
  induction l as [| y l IH]; simpl; [reflexivity |].
  destruct (key x <? key y); [| reflexivity].
  rewrite IH. apply perm_swap.
Qed.

Lemma sort_reverse_perm {A} (key : A -> Z) l : Permutation (sort_reverse key l) l.
Proof.
  induction l as [| x l IH]; simpl; [reflexivity |].
  rewrite insert_reverse_perm. constructor. exact IH.
Qed.

Lemma insert_reverse_sorted {A} (key : A -> Z) x l :
  StronglySorted (fun a b => key b <= key a) l ->
  StronglySorted (fun a b => key b <= key a) (insert_reverse key x l).
Proof.
  induction 1 as [| y l Hsorted IH Hall]; simpl.
  - repeat constructor.
  - destruct (Z.ltb_spec (key x) (key y)) as [Hlt | Hge].
    + constructor; [exact IH |].
      rewrite insert_reverse_perm. constructor; [lia | exact Hall].
    + constructor; [constructor; assumption |].
      constructor; [exact Hge |].
      eapply Forall_impl; [exact Hall |]. intros z Hz. simpl in Hz. lia.
Qed.

Lemma sort_reverse_sorted {A} (key : A -> Z) l :
  StronglySorted (fun a b => key b <= key a) (sort_reverse key l).
Proof.
  induction l as [| x l IH]; simpl; [constructor | apply insert_reverse_sorted; exact IH].
Qed.

Lemma insert_reverse_stable {A} (key : A -> Z) k x l :
  List.filter (fun e => key e =? k) (insert_reverse key x l)
  = List.filter (fun e => key e =? k) (x :: l).
Proof.
  induction l as [| y l IH]; [reflexivity |].
  cbn [insert_reverse]. destruct (Z.ltb_spec (key x) (key y)) as [Hlt | Hge]; [| reflexivity].
  cbn [List.filter] in *. rewrite IH.
  destruct (Z.eqb_spec (key x) k) as [Hx | Hx]; [| reflexivity].
  destruct (Z.eqb_spec (key y) k) as [Hy | Hy]; [lia | reflexivity].
Qed.

Lemma sort_reverse_stable {A} (key : A -> Z) k l :
  List.filter (fun e => key e =? k) (sort_reverse key l)
  = List.filter (fun e => key e =? k) l.
Proof.
  induction l as [| x l IH]; [reflexivity |].
  cbn [sort_reverse foldr]. fold (sort_reverse key l).
  rewrite insert_reverse_stable. cbn [List.filter]. rewrite IH. reflexivity.
Qed.

Lemma sort_reverse_largest_last {A} (key : A -> Z) l x :
  Forall (fun y => key y < key x) l ->
  sort_reverse key (l ++ [x]) = x :: sort_reverse key l.
Proof.
  induction 1 as [| y l Hy _ IH]; [reflexivity |].
  cbn [app sort_reverse foldr]. fold (sort_reverse key (l ++ [x])). fold (sort_reverse key l).
  rewrite IH. cbn [insert_reverse].
  destruct (Z.ltb_spec (key y) (key x)) as [_ | Hge]; [reflexivity | lia].
Qed.

Lemma length_slice_to {A} (l : list A) stop :
  Z.of_nat (length (slice_to l stop))
  = if stop <? 0 then Z.max 0 (Z.of_nat (length l) + stop)
    else Z.min stop (Z.of_nat (length l)).
Proof.
  unfold slice_to. rewrite length_take.
  destruct (Z.ltb_spec stop 0); lia.
Qed.

(** X12: [top_scores(limit)] is the beginning of the recorded entries
    put in non-increasing order of score, entries of equal score staying
    in the order they were recorded; it has [min(limit, n)] entries of
    the [n] recorded for a limit that is not negative and [max(0, n +
    limit)] for a negative one, and the stored list is not touched. *)
Theorem top_scores_spec (pm : profiles.ProfileManager) (limit : Z) :
  exists sorted,
    Permutation sorted (recorded pm) /\
    StronglySorted score_ge sorted /\
    (forall k, with_score k sorted = with_score k (recorded pm)) /\
    profiles.top_scores pm limit `prefix_of` sorted /\
    Z.of_nat (length (profiles.top_scores pm limit))
    = (if limit <? 0 then Z.max 0 (Z.of_nat (length (recorded pm)) + limit)
       else Z.min limit (Z.of_nat (length (recorded pm)))).
Proof.
  exists (sort_reverse profiles.score (recorded pm)).
  split; [apply sort_reverse_perm |].
  split; [apply sort_reverse_sorted |].
  split; [intros k; apply sort_reverse_stable |].
  split.
  - unfold profiles.top_scores, slice_to. fold (recorded pm).
    eexists. symmetry. apply take_drop.
  - unfold profiles.top_scores. fold (recorded pm). rewrite length_slice_to.
    rewrite (Permutation_length (sort_reverse_perm profiles.score (recorded pm))).
    reflexivity.
Qed.

Example top_scores_alice :
  map (fun e => (profiles.score e, profiles.lines e)) (profiles.top_scores alice_store 10)
  = [(1200, 10); (700, 5); (700, 7)] /\
  map profiles.score (profiles.top_scores alice_store (-1)) = [1200; 700].
Proof. split; vm_compute; reflexivity. Qed.

(** X13: when [record_game] returns for a score larger than every score
    recorded so far, the new entry is the first one of [top_scores] for
    every limit of at least 1. *)
Theorem top_scores_after_record (name : string) (score lines : Z) (now : string)
    (pm pm' : profiles.ProfileManager) (limit : Z) :
  profiles.record_game name score lines now pm = (Ok tt, pm') ->
  Forall (fun e => profiles.score e < score) (recorded pm) ->
  1 <= limit ->
  head (profiles.top_scores pm' limit)
  = Some (profiles.mkScoreEntry name score lines (Some now)).
Proof.
  intros Hrun Hsmall Hlimit.
  destruct (profiles.get_profile pm name) as [p |] eqn:Hget.
  - rewrite (record_game_known _ _ _ _ _ _ Hget) in Hrun.
    assert (Hrec : recorded pm'
                   = recorded pm ++ [profiles.mkScoreEntry name score lines (Some now)])
      by (inversion Hrun; reflexivity).
    clear Hrun. unfold profiles.top_scores. fold (recorded pm'). rewrite Hrec.
    rewrite (sort_reverse_largest_last profiles.score (recorded pm)
               (profiles.mkScoreEntry name score lines (Some now))) by exact Hsmall.
    unfold slice_to. destruct (Z.ltb_spec limit 0) as [Hneg | _]; [lia |].
    cbn [length].
    destruct (Z.to_nat (Z.min limit (Z.of_nat (Datatypes.S
                (length (sort_reverse profiles.score (recorded pm)))))))
      as [| k] eqn:Hk; [lia | reflexivity].
  - rewrite (record_game_unknown _ _ _ _ _ Hget) in Hrun. discriminate.
Qed.

Lemma top_scores_after_record_witness :
  exists pm',
    profiles.record_game "Alice" 1234 4 "2024-01-05T00:00:00Z" alice_store = (Ok tt, pm') /\
    head (profiles.top_scores pm' 50)
    = Some (profiles.mkScoreEntry "Alice" 1234 4 (Some "2024-01-05T00:00:00Z")).
Proof.
  eexists. split; [vm_compute; reflexivity |].
  eapply (top_scores_after_record "Alice" 1234 4 "2024-01-05T00:00:00Z" alice_store).
  - vm_compute; reflexivity.
  - vm_compute. repeat constructor.
  - lia.
Defined.

(** *** Profiles and recorded games agree *)

Lemma best_of_app l e :
  best_of (l ++ [e]) = Z.max (best_of l) (profiles.score e).
Proof.
  induction l as [| x l IH]; simpl; [lia |]. rewrite IH. lia.
Qed.

Lemma entries_of_app name l e :
  entries_of name (l ++ [e])
  = entries_of name l ++ (if bool_decide (profiles.profile e = name) then [e] else []).
Proof. unfold entries_of. rewrite List.filter_app. reflexivity. Qed.

Lemma entries_of_absent name l :
  (forall e, e ∈ l -> profiles.profile e <> name) -> entries_of name l = [].
Proof.
  induction l as [| x l IH]; intros Hall; [reflexivity |].
  unfold entries_of in *. simpl.
  rewrite bool_decide_eq_false_2 by (apply Hall; apply elem_of_cons; auto).
  apply IH. intros e He. apply Hall. apply elem_of_cons; auto.
Qed.

Lemma consistent_new : consistent (profiles.new None).
Proof.
  split.
  - intros e He. apply elem_of_nil in He. contradiction.
  - intros name d Hd. simpl in Hd. rewrite lookup_empty in Hd. discriminate.
Qed.

Lemma consistent_step o pm r pm' :
  consistent pm -> store_step o pm = (r, pm') -> consistent pm'.
Proof.
  intros [Hnamed Hcount] Hrun.
  destruct o as [name now | name | name score lines now]; simpl in Hrun.
  - unfold profiles.create_profile, bind, get in Hrun. simpl in Hrun.
    destruct (profiles.profiles (profiles._data pm) !! name) as [d |] eqn:Hlook.
    + rewrite bool_decide_eq_true_2 in Hrun by eauto.
      inversion Hrun; subst. split; assumption.
    + rewrite bool_decide_eq_false_2 in Hrun by (intros [d Hd]; discriminate).
      inversion Hrun; subst; clear Hrun. split.
      * intros e He. change (e ∈ recorded pm) in He. simpl.
        destruct (decide (profiles.profile e = name)) as [-> | Hne].
        -- rewrite lookup_insert_eq. eauto.
        -- rewrite lookup_insert_ne by congruence. apply Hnamed. exact He.
      * intros name' d Hd. simpl in Hd.
        change (recorded (profiles.mkProfileManager _ _)) with (recorded pm).
        destruct (decide (name' = name)) as [-> | Hne].
        -- rewrite lookup_insert_eq in Hd. inversion Hd; subst d; clear Hd.
           rewrite entries_of_absent; [split; reflexivity |].
           intros e He Heq. specialize (Hnamed e He). rewrite Heq, Hlook in Hnamed.
           destruct Hnamed as [d Hd]. discriminate.
        -- rewrite lookup_insert_ne in Hd by congruence. apply Hcount. exact Hd.
  - unfold profiles.set_active_profile, bind, get in Hrun. simpl in Hrun.
    destruct (profiles.get_profile pm name) as [p |];
      inversion Hrun; subst; split; assumption.
  - destruct (profiles.get_profile pm name) as [p |] eqn:Hget.
    + rewrite (record_game_known _ _ _ _ _ _ Hget) in Hrun.
      inversion Hrun; subst; clear Hrun.
      unfold profiles.get_profile in Hget.
      destruct (profiles.profiles (profiles._data pm) !! name) as [d0 |] eqn:Hlook;
        [| discriminate].
      inversion Hget; subst p; clear Hget.
      destruct (Hcount name d0 Hlook) as [Hgames Hbest].
      split.
      * intros e He. unfold recorded in He. simpl in He. fold (recorded pm) in He.
        simpl. apply elem_of_app in He as [He | He].
        -- destruct (decide (profiles.profile e = name)) as [-> | Hne].
           ++ rewrite lookup_insert_eq. eauto.
           ++ rewrite lookup_insert_ne by congruence. apply Hnamed. exact He.
        -- apply list_elem_of_singleton in He. subst e. simpl.
           rewrite lookup_insert_eq. eauto.
      * intros name' d Hd. simpl in Hd.
        unfold recorded. simpl. fold (recorded pm). rewrite entries_of_app. simpl.
        destruct (decide (name' = name)) as [-> | Hne].
        -- rewrite lookup_insert_eq in Hd. inversion Hd; subst d; clear Hd. simpl.
           rewrite bool_decide_eq_true_2 by reflexivity.
           split.
           ++ rewrite length_app. simpl in *. lia.
           ++ rewrite best_of_app. simpl. lia.
        -- rewrite lookup_insert_ne in Hd by congruence.
           rewrite bool_decide_eq_false_2 by congruence. rewrite app_nil_r.
           apply Hcount. exact Hd.
    + rewrite (record_game_unknown _ _ _ _ _ Hget) in Hrun.
      inversion Hrun; subst. split; assumption.
Qed.

(** X14: in every store reached from a missing data file by calls of
    [create_profile], [set_active_profile] and [record_game], failed ones
    included, each profile has as games played the number of score
    entries recorded under its name and as best score the largest of
    their scores (0 when it has none or only negative ones), and every
    score entry names an existing profile. *)
Theorem store_counts_games (pm : profiles.ProfileManager) :
  store_reachable pm ->
  (forall name p,
     profiles.get_profile pm name = Some p ->
     profiles.games_played p = Z.of_nat (length (entries_of name (recorded pm))) /\
     profiles.best_score p = best_of (entries_of name (recorded pm))) /\
  (forall e, e ∈ recorded pm -> is_Some (profiles.get_profile pm (profiles.profile e))).
Proof.
  intros Hreach.
  assert (Hcons : consistent pm).
  { induction Hreach as [| pm o r pm' _ IH Hstep];
      [apply consistent_new | eapply consistent_step; eassumption]. }
  destruct Hcons as [Hnamed Hcount]. split.
  - intros name p Hget. unfold profiles.get_profile in Hget.
    destruct (profiles.profiles (profiles._data pm) !! name) as [d |] eqn:Hlook;
      [| discriminate].
    inversion Hget; subst p. simpl. apply Hcount. exact Hlook.
  - intros e He. unfold profiles.get_profile.
    destruct (Hnamed e He) as [d ->]. eauto.
Qed.

Lemma store_counts_games_witness :
  store_reachable alice_store /\
  (profiles.games_played <$> profiles.get_profile alice_store "Alice") = Some 3 /\
  (profiles.best_score <$> profiles.get_profile alice_store "Alice") = Some 1200.
Proof.
  assert (Hreach : store_reachable alice_store).
  { unfold alice_store.
    eapply (store_next _ (RecordGame "Alice" 700 7 "2024-01-04T00:00:00Z") (Ok tt)).
    - eapply (store_next _ (RecordGame "Alice" 1200 10 "2024-01-03T00:00:00Z") (Ok tt)).
      + eapply (store_next _ (RecordGame "Alice" 700 5 "2024-01-02T00:00:00Z") (Ok tt)).
        * eapply (store_next _ (CreateProfile "Alice" "2024-01-01T00:00:00Z") (Ok tt)).
          -- apply store_new.
          -- vm_compute; reflexivity.
        * vm_compute; reflexivity.
      + vm_compute; reflexivity.
    - vm_compute; reflexivity. }
  split; [exact Hreach |].
  destruct (profiles.get_profile alice_store "Alice") as [p |] eqn:Hget;
    [| vm_compute in Hget; discriminate].
  destruct (proj1 (store_counts_games alice_store Hreach) "Alice" p Hget) as [Hgames Hbest].
  simpl. rewrite Hgames, Hbest. split; vm_compute; reflexivity.
Defined.

(** ** Further properties of scores.py *)

Lemma add_soft_drop_run cells s :
  scores.add_soft_drop cells s
  = (Ok tt, if cells <=? 0 then s
            else scores.set_score (scores.score s + cells * 1) s).
Proof. unfold scores.add_soft_drop. destruct (cells <=? 0); reflexivity. Qed.

Lemma add_hard_drop_run cells s :
  scores.add_hard_drop cells s
  = (Ok tt, if cells <=? 0 then s
            else scores.set_score (scores.score s + cells * 2) s).
Proof. unfold scores.add_hard_drop. destruct (cells <=? 0); reflexivity. Qed.

Lemma base_points_pos n : 1 <= n -> 100 <= base_points n.
Proof.
  intros Hn. unfold base_points.
  destruct (Z.eqb_spec n 1); [lia |]. destruct (Z.eqb_spec n 2); [lia |].
  destruct (Z.eqb_spec n 3); [lia |]. destruct (Z.eqb_spec n 4); lia.
Qed.

Lemma score_step_grows o s :
  0 <= scores.combo_streak s ->
  scores.score s <= scores.score (score_step o s) /\
  scores.total_lines s <= scores.total_lines (score_step o s) /\
  0 <= scores.combo_streak (score_step o s).
Proof.
  intros Hstreak. destruct o as [cells | cells | lines | name]; simpl.
  - rewrite add_soft_drop_run. simpl.
    destruct (Z.leb_spec cells 0); simpl; lia.
  - rewrite add_hard_drop_run. simpl.
    destruct (Z.leb_spec cells 0); simpl; lia.
  - destruct (Z.le_gt_cases lines 0) as [Hle | Hgt].
    + rewrite record_line_clear_nonpos by lia. simpl. lia.
    + rewrite record_line_clear_pos by lia. simpl.
      pose proof (base_points_pos lines ltac:(lia)). lia.
  - lia.
Qed.

(** X15: from a fresh or reset score manager, whatever calls of
    [add_soft_drop], [add_hard_drop], [record_line_clear] and
    [attach_profile] follow, with any integer arguments, the score, the
    total of lines and the streak are never negative, and one more such
    call never lowers the score or the total of lines. *)
Theorem score_never_decreases (ops : list score_op) (o : score_op)
    (pm : profiles.ProfileManager) :
  let s := score_run ops (scores.new pm) in
  0 <= scores.score s /\
  0 <= scores.total_lines s /\
  0 <= scores.combo_streak s /\
  scores.score s <= scores.score (score_step o s) /\
  scores.total_lines s <= scores.total_lines (score_step o s).
Proof.
  assert (Hinv : forall ops s,
             0 <= scores.score s -> 0 <= scores.total_lines s ->
             0 <= scores.combo_streak s ->
             0 <= scores.score (score_run ops s) /\
             0 <= scores.total_lines (score_run ops s) /\
             0 <= scores.combo_streak (score_run ops s)).
  { clear. induction ops as [| o ops IH]; intros s Hs Hl Hc; simpl; [auto |].
    destruct (score_step_grows o s Hc) as (Hs' & Hl' & Hc').
    apply IH; lia. }
  intros s. destruct (Hinv ops (scores.new pm)) as (Hs & Hl & Hc); simpl; try lia.
  fold s in Hs, Hl, Hc.
  destruct (score_step_grows o s Hc) as (Hs' & Hl' & _).
  auto.
Qed.

Lemma clear_times_spec k :
  forall n s,
    1 <= n ->
    clear_times k n s
    = scores.mkScoreManager (scores.profile_manager s)
        (scores.score s + Z.of_nat k * base_points n
         + 50 * (Z.of_nat k * scores.combo_streak s)
         + 25 * (Z.of_nat k * (Z.of_nat k - 1)))
        (scores.total_lines s + Z.of_nat k * n)
        (scores.combo_streak s + Z.of_nat k)
        (scores.active_profile s).
Proof.
  induction k as [| k IH]; intros n s Hn.
  - simpl. destruct s; simpl. f_equal; lia.
  - cbn [clear_times]. rewrite record_line_clear_pos by exact Hn. cbn [snd].
    rewrite IH by exact Hn. cbn [scores.profile_manager scores.score scores.total_lines
                                 scores.combo_streak scores.active_profile].
    f_equal; nia.
Qed.

(** X16: [k] successive calls of [record_line_clear(n)] with [n >= 1]
    raise the score by [k] times the base points of [n] plus the combo
    bonuses [50 * streak], which add up to [50 * k * c + 25 * k * (k - 1)]
    for a streak [c] before the first call; the streak grows by [k] and
    the total of lines by [k * n]. *)
Theorem combo_chain (k : nat) (n : Z) (s : scores.ScoreManager) :
  1 <= n ->
  let s' := clear_times k n s in
  scores.score s'
  = scores.score s + Z.of_nat k * base_points n
    + 50 * Z.of_nat k * scores.combo_streak s
    + 25 * Z.of_nat k * (Z.of_nat k - 1) /\
  scores.combo_streak s' = scores.combo_streak s + Z.of_nat k /\
  scores.total_lines s' = scores.total_lines s + Z.of_nat k * n.
Proof.
  intros Hn s'. unfold s'. rewrite clear_times_spec by exact Hn. simpl.
  repeat split; lia.
Qed.

Lemma combo_chain_witness :
  scores.score (clear_times 3 1 (scores.new (profiles.new None))) = 450.
Proof.
  rewrite (proj1 (combo_chain 3 1 (scores.new (profiles.new None)) ltac:(lia))).
  reflexivity.
Defined.

Lemma finalize_unfold now s :
  scores.finalize now s =
  match scores.active_profile s with
  | None => (Raise (RuntimeError "Aucun profil actif pour enregistrer le score"), s)
  | Some name =>
      if bool_decide (name = "")
      then (Raise (RuntimeError "Aucun profil actif pour enregistrer le score"), s)
      else
        match profiles.record_game name (scores.score s) (scores.total_lines s) now
                (scores.profile_manager s) with
        | (Ok _, pm') =>
            (Ok (scores.mkScoreSnapshot (scores.score s) (scores.total_lines s)),
             scores.set_profile_manager pm' s)
        | (Raise e, pm') => (Raise e, scores.set_profile_manager pm' s)
        end
  end.
Proof.
  unfold scores.finalize, bind, get. simpl.
  destruct (scores.active_profile s) as [name |]; [| reflexivity].
  destruct (bool_decide (name = "")); simpl; [reflexivity |].
  unfold zoom. simpl.
  destruct (profiles.record_game name (scores.score s) (scores.total_lines s) now
              (scores.profile_manager s)) as [[[] | e] pm']; reflexivity.
Qed.

Lemma set_profile_manager_same s : scores.set_profile_manager (scores.profile_manager s) s = s.
Proof. destruct s; reflexivity. Qed.

(** X17: [ScoreManager.finalize] raises the no-active-profile
    [RuntimeError] when no profile is attached or the attached name is
    empty, and the unknown-profile [ValueError] of [record_game] when the
    attached name has no profile; in both cases nothing changes.
    Otherwise it returns the snapshot of the score and the total of
    lines, the store has recorded one game with these for the attached
    name, and the score, the lines, the streak and the attachment are as
    before: finalizing neither resets nor detaches. *)
Theorem score_finalize_spec (now : string) (s s' : scores.ScoreManager)
    (r : result scores.ScoreSnapshot) :
  scores.finalize now s = (r, s') ->
  (scores.truthy (scores.active_profile s) = false ->
   r = Raise (RuntimeError "Aucun profil actif pour enregistrer le score") /\ s' = s) /\
  (forall name,
     scores.active_profile s = Some name -> name <> "" ->
     (profiles.get_profile (scores.profile_manager s) name = None ->
      r = Raise (ValueError ("Profil inconnu: " +:+ name)) /\ s' = s) /\
     (is_Some (profiles.get_profile (scores.profile_manager s) name) ->
      r = Ok (scores.mkScoreSnapshot (scores.score s) (scores.total_lines s)) /\
      profiles.record_game name (scores.score s) (scores.total_lines s) now
        (scores.profile_manager s) = (Ok tt, scores.profile_manager s') /\
      recorded (scores.profile_manager s')
      = recorded (scores.profile_manager s)
        ++ [profiles.mkScoreEntry name (scores.score s) (scores.total_lines s) (Some now)] /\
      scores.score s' = scores.score s /\
      scores.total_lines s' = scores.total_lines s /\
      scores.combo_streak s' = scores.combo_streak s /\
      scores.active_profile s' = scores.active_profile s)).
Proof.
  rewrite finalize_unfold. intros Hrun. split.
  - intros Hfalsy. unfold scores.truthy in Hfalsy.
    destruct (scores.active_profile s) as [name |]; [| inversion Hrun; auto].
    destruct (bool_decide (name = "")); [inversion Hrun; auto | discriminate].
  - intros name Hattached Hname. rewrite Hattached in Hrun.
    rewrite bool_decide_eq_false_2 in Hrun by exact Hname. split.
    + intros Hget. rewrite (record_game_unknown _ _ _ _ _ Hget) in Hrun.
      inversion Hrun; subst. rewrite set_profile_manager_same. auto.
    + intros [p Hget]. rewrite (record_game_known _ _ _ _ _ _ Hget) in Hrun |- *.
      inversion Hrun; subst; clear Hrun. simpl. rewrite Hattached.
      repeat (split; [reflexivity |]). reflexivity.
Qed.

Lemma score_finalize_spec_witness :
  exists e,
    scores.finalize "2024-01-05T00:00:00Z" alice_scores = (Raise (RuntimeError e), alice_scores).
Proof.
  destruct (scores.finalize "2024-01-05T00:00:00Z" alice_scores) as [r s'] eqn:Hrun.
  destruct (proj1 (score_finalize_spec _ _ _ _ Hrun)) as [-> ->].
  - vm_compute; reflexivity.
  - eexists. reflexivity.
Defined.

Example score_finalize_alice :
  exists s',
    scores.finalize "2024-01-05T00:00:00Z" alice_attached
    = (Ok (scores.mkScoreSnapshot 820 4), s') /\
    (profiles.games_played <$> profiles.get_profile (scores.profile_manager s') "Alice")
    = Some 4.
Proof. eexists. split; vm_compute; reflexivity. Qed.

(** ** Further properties of game.py *)

Lemma rotate_unfold clockwise g :
  game.rotate clockwise g =
  match game.active g with
  | None => (Ok false, g)
  | Some piece =>
      if game.game_over g then (Ok false, g)
      else
        match tetromino.rotated (tetromino.tetromino (game.state piece))
                (tetromino.rotation_index (game.state piece)
                 + (if clockwise then 1 else -1)) with
        | Raise e => (Raise e, g)
        | Ok new_state =>
            match tetromino.blocks new_state with
            | Raise e => (Raise e, g)
            | Ok offsets =>
                match board.can_place (game.board g)
                        (game.at_origin (game.origin piece) offsets) with
                | Raise e => (Raise e, g)
                | Ok false => (Ok false, g)
                | Ok true =>
                    (Ok true,
                     game.set_active
                       (Some (game.mkActivePiece new_state (game.origin piece))) g)
                end
            end
        end
  end.
Proof.
  unfold game.rotate, bind, get, lift. simpl.
  destruct (game.active g) as [piece |]; [| reflexivity].
  destruct (game.game_over g); [reflexivity |].
  destruct (tetromino.rotated _ _) as [new_state | e]; [| reflexivity].
  destruct (tetromino.blocks new_state) as [offsets | e]; [| reflexivity].
  destruct (board.can_place _ _) as [[|] | e]; reflexivity.
Qed.

(** X18: [rotate] changes the game only when it returns [True]: then a
    piece was active and the game not over, and the new game differs
    from the old one only in its active piece, which has the same
    origin and the rotation state [rotated] gives for the index plus 1
    (clockwise) or minus 1, whose cells the board has accepted at that
    origin; no other position is tried.  In every other case, [False] or
    an exception, the game is as it was. *)
Theorem rotate_spec (clockwise : bool) (g g' : game.Game) (r : result bool) :
  game.rotate clockwise g = (r, g') ->
  (r = Ok true ->
   exists piece new_state offsets,
     game.active g = Some piece /\ game.game_over g = false /\
     tetromino.rotated (tetromino.tetromino (game.state piece))
       (tetromino.rotation_index (game.state piece) + (if clockwise then 1 else -1))
     = Ok new_state /\
     tetromino.blocks new_state = Ok offsets /\
     board.can_place (game.board g) (game.at_origin (game.origin piece) offsets) = Ok true /\
     g' = game.set_active (Some (game.mkActivePiece new_state (game.origin piece))) g) /\
  (r <> Ok true -> g' = g).
Proof.
  rewrite rotate_unfold.
  destruct (game.active g) as [piece |] eqn:Hact;
    [| intros H; inversion H; subst; split; [discriminate | reflexivity]].
  destruct (game.game_over g) eqn:Hover;
    [intros H; inversion H; subst; split; [discriminate | reflexivity] |].
  destruct (tetromino.rotated _ _) as [new_state | e] eqn:Hrot;
    [| intros H; inversion H; subst; split; [discriminate | reflexivity]].
  destruct (tetromino.blocks new_state) as [offsets | e] eqn:Hoff;
    [| intros H; inversion H; subst; split; [discriminate | reflexivity]].
  destruct (board.can_place _ _) as [[|] | e] eqn:Hplace;
    intros H; inversion H; subst; (split; [| try reflexivity; try congruence]);
    try discriminate.
  intros _. exists piece, new_state, offsets. auto 10.
Qed.

Lemma rotate_spec_witness :
  exists g',
    game.rotate true test_start = (Ok true, g') /\
    game.board g' = game.board test_start /\
    game.score_manager g' = game.score_manager test_start.
Proof.
  destruct (game.rotate true test_start) as [r g'] eqn:Hrun.
  assert (Hr : r = Ok true) by (vm_compute in Hrun; congruence).
  destruct (proj1 (rotate_spec true test_start g' r Hrun) Hr)
    as (piece & new_state & offsets & _ & _ & _ & _ & _ & ->).
  exists (game.set_active (Some (game.mkActivePiece new_state (game.origin piece))) test_start).
  rewrite Hr. repeat split.
Defined.

(** X19: when [move(dx, dy)] returns [True], the active piece keeps its
    rotation state and has its origin moved by [(dx, dy)], on cells the
    board has accepted; the board, the total of lines and the streak are
    unchanged; and the score has grown by 1 when [dy > 0], whatever the
    number of rows moved, and not at all otherwise. *)
Theorem move_success_effect (dx dy : Z) (g g1 : game.Game) :
  game.move dx dy g = (Ok true, g1) ->
  exists piece offsets,
    game.active g = Some piece /\
    game.game_over g = false /\ game.game_over g1 = false /\
    tetromino.blocks (game.state piece) = Ok offsets /\
    board.can_place (game.board g)
      (game.at_origin (fst (game.origin piece) + dx, snd (game.origin piece) + dy) offsets)
    = Ok true /\
    game.active g1
    = Some (game.mkActivePiece (game.state piece)
              (fst (game.origin piece) + dx, snd (game.origin piece) + dy)) /\
    game.board g1 = game.board g /\
    scores.score (game.score_manager g1)
    = scores.score (game.score_manager g) + (if dy >? 0 then 1 else 0) /\
    scores.total_lines (game.score_manager g1) = scores.total_lines (game.score_manager g) /\
    scores.combo_streak (game.score_manager g1) = scores.combo_streak (game.score_manager g).
Proof.
  rewrite move_unfold.
  destruct (game.active g) as [piece |] eqn:Hact; [| discriminate].
  destruct (game.game_over g) eqn:Hover; [discriminate |].
  destruct (tetromino.blocks (game.state piece)) as [offsets | e] eqn:Hoff; [| discriminate].
  destruct (board.can_place _ _) as [[|] | e] eqn:Hplace; try discriminate.
  intros H; inversion H; subst g1; clear H.
  exists piece, offsets. unfold moved.
  destruct (dy >? 0); simpl; rewrite ?Z.add_0_r; auto 20.
Qed.

Lemma move_success_effect_witness :
  exists g1,
    game.move 0 3 started_game = (Ok true, g1) /\
    scores.score (game.score_manager g1) = scores.score (game.score_manager started_game) + 1.
Proof.
  eexists. split; [vm_compute; reflexivity |].
  edestruct (move_success_effect 0 3 started_game)
    as (piece & offsets & _ & _ & _ & _ & _ & _ & _ & Hscore & _).
  - vm_compute; reflexivity.
  - exact Hscore.
Defined.

Lemma fallen_active k piece g :
  game.active (fallen k piece g)
  = Some (game.mkActivePiece (game.state piece)
            (fst (game.origin piece), snd (game.origin piece) + k)).
Proof. reflexivity. Qed.

Lemma hard_drop_loop_path fuel :
  forall k d0 piece g d g1,
    game.game_over g = false ->
    game.hard_drop_loop fuel d0 (fallen k piece g) = Some (Ok d, g1) ->
    exists offsets,
      tetromino.blocks (game.state piece) = Ok offsets /\
      board.can_place (game.board g)
        (game.at_origin (fst (game.origin piece), snd (game.origin piece) + (k + (d - d0) + 1))
           offsets) = Ok false /\
      forall j,
        k < j <= k + (d - d0) ->
        board.can_place (game.board g)
          (game.at_origin (fst (game.origin piece), snd (game.origin piece) + j) offsets)
        = Ok true.
Proof.
  induction fuel as [| fuel IH]; intros k d0 piece g d g1 Hover Hloop; simpl in Hloop.
  - discriminate.
  - rewrite move_unfold in Hloop. rewrite fallen_active in Hloop.
    change (game.game_over (fallen k piece g)) with (game.game_over g) in Hloop.
    change (game.board (fallen k piece g)) with (game.board g) in Hloop.
    rewrite Hover in Hloop. cbn [game.state game.origin fst snd] in Hloop.
    destruct (tetromino.blocks (game.state piece)) as [offsets | e] eqn:Hoff;
      [| discriminate].
    rewrite Z.add_0_r in Hloop.
    destruct (board.can_place (game.board g)
                (game.at_origin (fst (game.origin piece), snd (game.origin piece) + k + 1)
                   offsets)) as [[|] | e] eqn:Hplace; [| | discriminate].
    + rewrite moved_fallen in Hloop.
      pose proof Hloop as Hbound. apply hard_drop_loop_fallen in Hbound as [Hle _].
      apply IH in Hloop as (offsets' & Hoff' & Hstop & Hpath); [| exact Hover].
      rewrite Hoff in Hoff'. inversion Hoff'; subst offsets'; clear Hoff'.
      exists offsets. split; [reflexivity | split].
      * replace (k + (d - d0) + 1) with (k + 1 + (d - (d0 + 1)) + 1) by lia. exact Hstop.
      * intros j Hj. destruct (Z.eq_dec j (k + 1)) as [-> | Hne].
        -- rewrite Z.add_assoc. exact Hplace.
        -- apply Hpath. lia.
    + inversion Hloop; subst. exists offsets. split; [reflexivity | split].
      * replace (k + (d - d) + 1) with (k + 1) by lia. rewrite Z.add_assoc. exact Hplace.
      * intros j Hj. lia.
Qed.

(** X20: when the loop of [hard_drop] ends after [d] cells, the board
    has accepted the piece at each of the [d] rows it went through and
    refuses it one row lower: the piece is locked on the first row, from
    where it was, at which a further step down is illegal. *)
Theorem hard_drop_lands (fuel : nat) (g g1 : game.Game) (piece : game.ActivePiece) (d : Z) :
  game.active g = Some piece ->
  game.game_over g = false ->
  game.hard_drop_loop fuel 0 g = Some (Ok d, g1) ->
  exists offsets,
    tetromino.blocks (game.state piece) = Ok offsets /\
    0 <= d /\
    game.active g1
    = Some (game.mkActivePiece (game.state piece)
              (fst (game.origin piece), snd (game.origin piece) + d)) /\
    (forall j, 1 <= j <= d ->
       board.can_place (game.board g)
         (game.at_origin (fst (game.origin piece), snd (game.origin piece) + j) offsets)
       = Ok true) /\
    board.can_place (game.board g)
      (game.at_origin (fst (game.origin piece), snd (game.origin piece) + (d + 1)) offsets)
    = Ok false.
Proof.
  intros Hact Hover Hloop.
  rewrite <- (fallen_zero g piece Hact) in Hloop.
  pose proof (hard_drop_loop_fallen _ _ _ _ _ _ _ Hloop) as [Hd Hg1].
  apply hard_drop_loop_path in Hloop as (offsets & Hoff & Hstop & Hpath); [| exact Hover].
  exists offsets. split; [exact Hoff | split; [lia | split; [| split]]].
  - rewrite Hg1. rewrite fallen_active. repeat f_equal. lia.
  - intros j Hj. apply Hpath. lia.
  - replace (d + 1) with (0 + (d - 0) + 1) by lia. exact Hstop.
Qed.

Lemma hard_drop_lands_witness :
  exists g1 offsets,
    game.hard_drop_loop 30 0 started_game = Some (Ok 18, g1) /\
    board.can_place (game.board started_game) (game.at_origin (5, 0 + (18 + 1)) offsets)
    = Ok false.
Proof.
  edestruct (hard_drop_lands 30 started_game) as (offsets & _ & _ & _ & _ & Hstop).
  - vm_compute; reflexivity.
  - vm_compute; reflexivity.
  - vm_compute; reflexivity.
  - eexists _, offsets. split; [vm_compute; reflexivity | exact Hstop].
Defined.

Lemma hard_drop_loop_hollow fuel :
  forall d0 g piece,
    game.active g = Some piece ->
    game.game_over g = false ->
    tetromino.blocks (game.state piece) = Ok [] ->
    game.hard_drop_loop fuel d0 g = None.
Proof.
  induction fuel as [| fuel IH]; intros d0 g piece Hact Hover Hoff; [reflexivity |].
  cbn [game.hard_drop_loop]. rewrite move_unfold, Hact, Hover, Hoff. simpl.
  eapply IH.
  - reflexivity.
  - unfold moved. simpl. exact Hover.
  - simpl. exact Hoff.
Qed.

(** X21: for an active piece whose rotation state has no cell the board
    accepts every position, so the loop of [hard_drop] never ends: the
    call returns for no amount of fuel. *)
Theorem hard_drop_hollow_diverges (fuel : nat) (g : game.Game) (piece : game.ActivePiece) :
  game.active g = Some piece ->
  game.game_over g = false ->
  tetromino.blocks (game.state piece) = Ok [] ->
  game.hard_drop fuel g = None.
Proof.
  intros Hact Hover Hoff. unfold game.hard_drop. rewrite Hact, Hover.
  rewrite (hard_drop_loop_hollow fuel 0 g piece Hact Hover Hoff). reflexivity.
Qed.

Lemma hard_drop_hollow_diverges_witness :
  game.hard_drop 1000 hollow_game = None.
Proof.
  eapply (hard_drop_hollow_diverges 1000 hollow_game).
  - vm_compute; reflexivity.
  - vm_compute; reflexivity.
  - vm_compute; reflexivity.
Defined.

(** *** The board stays well formed and the piece on legal cells *)

Lemma kept_refl g : sound g -> kept g g.
Proof. unfold kept. auto. Qed.

Lemma kept_trans g1 g2 g3 : kept g1 g2 -> kept g2 g3 -> kept g1 g3.
Proof. unfold kept. intros (_ & Hw & Hh) (Hs & Hw' & Hh'). split; [exact Hs |]. split; congruence. Qed.

Lemma kept_same_board g g' :
  game.board g' = game.board g -> well_formed (game.board g) -> placed g' -> kept g g'.
Proof.
  intros Hb Hwf Hplaced. unfold kept, sound. rewrite Hb. auto.
Qed.

Lemma kept_same_piece g g' :
  game.board g' = game.board g -> game.active g' = game.active g -> sound g -> kept g g'.
Proof.
  intros Hb Ha [Hwf Hplaced]. apply kept_same_board; [exact Hb | exact Hwf |].
  intros piece Hact. rewrite Ha in Hact. rewrite Hb. auto.
Qed.

Lemma blocks_of_piece piece cells :
  game.blocks piece = Ok cells <->
  exists offsets,
    tetromino.blocks (game.state piece) = Ok offsets /\
    cells = game.at_origin (game.origin piece) offsets.
Proof.
  unfold game.blocks. destruct (tetromino.blocks (game.state piece)) as [offsets | e]; simpl.
  - split; [intros H; inversion H; eauto | intros (o & Ho & ->); inversion Ho; reflexivity].
  - split; [discriminate | intros (o & Ho & _); discriminate].
Qed.

Lemma move_kept dx dy g r g' :
  sound g -> game.move dx dy g = (r, g') -> kept g g'.
Proof.
  intros Hsound Hmove. destruct r as [[|] | e].
  - rewrite move_unfold in Hmove.
    destruct (game.active g) as [piece |]; [| discriminate].
    destruct (game.game_over g); [discriminate |].
    destruct (tetromino.blocks (game.state piece)) as [offsets | e] eqn:Hoff; [| discriminate].
    destruct (board.can_place _ _) as [[|] | e] eqn:Hplace; try discriminate.
    inversion Hmove; subst g'; clear Hmove.
    assert (Hboard : game.board (moved dx dy piece g) = game.board g)
      by (unfold moved; destruct (dy >? 0); reflexivity).
    apply kept_same_board; [exact Hboard | apply Hsound |].
    intros piece' Hact'. unfold moved in Hact'. simpl in Hact'.
    inversion Hact'; subst piece'; clear Hact'.
    eexists. split; [apply blocks_of_piece; eauto |]. rewrite Hboard. exact Hplace.
  - apply move_false_same in Hmove as ->. apply kept_refl. exact Hsound.
  - apply move_raise_unchanged in Hmove as ->. apply kept_refl. exact Hsound.
Qed.

Lemma rotate_kept clockwise g r g' :
  sound g -> game.rotate clockwise g = (r, g') -> kept g g'.
Proof.
  intros Hsound. rewrite rotate_unfold.
  destruct (game.active g) as [piece |];
    [| intros H; inversion H; subst; apply kept_refl; exact Hsound].
  destruct (game.game_over g);
    [intros H; inversion H; subst; apply kept_refl; exact Hsound |].
  destruct (tetromino.rotated _ _) as [new_state | e];
    [| intros H; inversion H; subst; apply kept_refl; exact Hsound].
  destruct (tetromino.blocks new_state) as [offsets | e] eqn:Hoff;
    [| intros H; inversion H; subst; apply kept_refl; exact Hsound].
  destruct (board.can_place _ _) as [[|] | e] eqn:Hplace;
    intros H; inversion H; subst; try (apply kept_refl; exact Hsound).
  apply kept_same_board; [reflexivity | apply Hsound |].
  intros piece' Hact'. simpl in Hact'. inversion Hact'; subst piece'; clear Hact'.
  eexists. split; [apply blocks_of_piece; eauto |]. exact Hplace.
Qed.

Lemma spawn_kept g r g' :
  sound g -> game._spawn_next_piece g = (r, g') -> kept g g'.
Proof.
  intros [Hwf Hplaced]. rewrite spawn_unfold.
  destruct (game._next_tetromino g) as [[shape | e] g1] eqn:Hdraw;
    apply next_tetromino_same_core in Hdraw as (Hb & _ & Ha & _).
  - assert (Hsame : kept g g1).
    { apply kept_same_board; [exact Hb | exact Hwf |].
      intros piece Hact. rewrite Ha in Hact. rewrite Hb. auto. }
    destruct (tetromino.rotated shape 0) as [st | e];
      [| intros H; inversion H; subst; exact Hsame].
    destruct (game.blocks (spawned g1 st)) as [cells | e] eqn:Hcells;
      [| intros H; inversion H; subst; exact Hsame].
    destruct (board.can_place (game.board g1) cells) as [[|] | e] eqn:Hplace;
      intros H; inversion H; subst; try exact Hsame.
    + apply kept_same_board; [exact Hb | exact Hwf |].
      intros piece Hact. simpl in Hact. inversion Hact; subst piece.
      exists cells. simpl. auto.
    + apply kept_same_board; [exact Hb | exact Hwf |].
      intros piece Hact. discriminate.
  - assert (Hlost : kept g (lost g1)).
    { apply kept_same_board; [exact Hb | exact Hwf |].
      intros piece Hact. discriminate. }
    destruct (game.is_StopIteration e); intros H; inversion H; subst; [exact Hlost |].
    apply kept_same_board; [exact Hb | exact Hwf |].
    intros piece Hact. rewrite Ha in Hact. rewrite Hb. auto.
Qed.

Lemma record_line_clear_returns n s :
  exists gained s', scores.record_line_clear n s = (Ok gained, s').
Proof.
  destruct (Z.le_gt_cases n 0).
  - rewrite record_line_clear_nonpos by lia. eauto.
  - rewrite record_line_clear_pos by lia. eauto.
Qed.

(** Under soundness the lock writes the piece without raising, clears
    the lines and hands over to the spawn. *)
Lemma lock_piece_run g piece :
  sound g -> game.active g = Some piece ->
  exists cells b1 lines b2 gained sm,
    game.blocks piece = Ok cells /\
    board.lock_piece cells (tetromino.name (tetromino.tetromino (game.state piece)))
      (game.board g) = (Ok tt, b1) /\
    board.clear_full_lines b1 = (Ok lines, b2) /\
    scores.record_line_clear lines (game.score_manager g) = (Ok gained, sm) /\
    well_formed b2 /\
    board.width b2 = board.width (game.board g) /\
    board.height b2 = board.height (game.board g) /\
    game.lock_piece g
    = game._spawn_next_piece
        (game.set_active None (game.set_score_manager sm (game.set_board b2 g))).
Proof.
  intros [Hwf Hplaced] Hact. destruct (Hplaced piece Hact) as (cells & Hcells & Hplace).
  destruct (write_cells_spec
              (Some (tetromino.name (tetromino.tetromino (game.state piece))))
              cells (game.board g) Hwf (can_place_lockable _ _ Hplace))
    as (b1 & Hlock & Hwf1 & Hw1 & Hh1 & _).
  destruct (board.clear_full_lines b1) as [rl b2] eqn:Hclear.
  destruct (clear_full_lines_well_formed _ _ _ Hwf1 Hclear) as (Hwf2 & Hw2 & Hh2).
  destruct (clear_full_lines_run b1 (proj1 Hwf1)) as (n & _ & Hclear').
  rewrite Hclear in Hclear'. inversion Hclear'; subst rl.
  destruct (record_line_clear_returns (Z.of_nat n) (game.score_manager g))
    as (gained & sm & Hrecord).
  exists cells, b1, (Z.of_nat n), b2, gained, sm.
  split; [exact Hcells |]. split; [exact Hlock |]. split; [congruence |].
  split; [exact Hrecord |]. split; [exact Hwf2 |]. split; [congruence |]. split; [congruence |].
  rewrite lock_piece_unfold, Hact, Hcells.
  change (board.lock_piece cells (tetromino.name (tetromino.tetromino (game.state piece)))
            (game.board g))
    with (for_each cells
            (write_cell (Some (tetromino.name (tetromino.tetromino (game.state piece)))))
            (game.board g)).
  rewrite Hlock, Hclear, Hrecord. subst b2. reflexivity.
Qed.

Lemma lock_piece_kept g r g' :
  sound g -> game.lock_piece g = (r, g') -> kept g g'.
Proof.
  intros Hsound Hrun.
  destruct (game.active g) as [piece |] eqn:Hact.
  - destruct (lock_piece_run g piece Hsound Hact)
      as (cells & b1 & lines & b2 & gained & sm & _ & _ & _ & _ & Hwf2 & Hw2 & Hh2 & Heq).
    rewrite Heq in Hrun. apply spawn_kept in Hrun.
    + destruct Hrun as (Hs & Hw & Hh). simpl in Hw, Hh.
      split; [exact Hs |]. split; congruence.
    + split; [exact Hwf2 |]. intros p Hp. discriminate.
  - rewrite lock_piece_unfold, Hact in Hrun. inversion Hrun; subst.
    apply kept_refl. exact Hsound.
Qed.

Lemma tick_kept g r g' :
  sound g -> game.tick g = (r, g') -> kept g g'.
Proof.
  intros Hsound. unfold game.tick, bind, get. simpl.
  destruct (game.active g) as [piece |];
    [| intros H; inversion H; subst; apply kept_refl; exact Hsound].
  destruct (game.game_over g);
    [intros H; inversion H; subst; apply kept_refl; exact Hsound |].
  destruct (game.move 0 1 g) as [[[|] | e] g1] eqn:Hmove;
    pose proof (move_kept _ _ _ _ _ Hsound Hmove) as Hkept; simpl.
  - intros H; inversion H; subst. exact Hkept.
  - intros Hlock. eapply kept_trans; [exact Hkept |].
    eapply lock_piece_kept; [apply Hkept | exact Hlock].
  - intros H; inversion H; subst. exact Hkept.
Qed.

Lemma hard_drop_loop_kept fuel :
  forall d0 g r g1,
    sound g -> game.hard_drop_loop fuel d0 g = Some (r, g1) -> kept g g1.
Proof.
  induction fuel as [| fuel IH]; intros d0 g r g1 Hsound; simpl; [discriminate |].
  destruct (game.move 0 1 g) as [[[|] | e] g2] eqn:Hmove;
    pose proof (move_kept _ _ _ _ _ Hsound Hmove) as Hkept.
  - intros Hloop. eapply kept_trans; [exact Hkept |].
    eapply IH; [apply Hkept | exact Hloop].
  - intros H; inversion H; subst. exact Hkept.
  - intros H; inversion H; subst. exact Hkept.
Qed.

Lemma zoom_score_kept {A} (m : M scores.ScoreManager A) g r g' :
  sound g -> zoom game.score_manager game.set_score_manager m g = (r, g') -> kept g g'.
Proof.
  intros Hsound. unfold zoom. destruct (m (game.score_manager g)) as [r0 sm].
  intros H; inversion H; subst. apply kept_same_piece; [reflexivity | reflexivity | exact Hsound].
Qed.

Lemma hard_drop_kept fuel g r g' :
  sound g -> game.hard_drop fuel g = Some (r, g') -> kept g g'.
Proof.
  intros Hsound. unfold game.hard_drop.
  destruct (game.active g) as [piece |];
    [| intros H; inversion H; subst; apply kept_refl; exact Hsound].
  destruct (game.game_over g);
    [intros H; inversion H; subst; apply kept_refl; exact Hsound |].
  destruct (game.hard_drop_loop fuel 0 g) as [[[distance | e] g1] |] eqn:Hloop;
    [| intros H; inversion H; subst; eapply hard_drop_loop_kept; eassumption
     | discriminate].
  apply hard_drop_loop_kept in Hloop; [| exact Hsound].
  intros H; inversion H as [Hrun]; clear H.
  apply bind_inv in Hrun as [(a & g2 & Hbonus & Hlock) | (e & Hbonus & _)];
    apply zoom_score_kept in Hbonus; try apply Hloop.
  - eapply kept_trans; [exact Hloop |]. eapply kept_trans; [exact Hbonus |].
    eapply lock_piece_kept; [apply Hbonus | exact Hlock].
  - eapply kept_trans; eassumption.
Qed.

Lemma can_place_on_empty b cells :
  well_formed b ->
  board.can_place b cells = Ok true ->
  board.can_place (board.new (board.width b) (board.height b)) cells = Ok true.
Proof.
  intros Hwf Hplace.
  destruct (can_place_legal b cells Hwf) as (v & Hv & Hiff).
  rewrite Hplace in Hv. inversion Hv; subst v.
  destruct (can_place_legal _ cells (new_of_well_formed b Hwf)) as (v' & Hv' & Hiff').
  rewrite Hv'. f_equal. apply Hiff'.
  eapply Forall_impl; [apply Hiff; reflexivity |].
  intros [x y] (Hx & Hy & _). unfold legal in *; simpl in *.
  split; [exact Hx | split; [exact Hy |]]. intros Hy0. rewrite cell_new.
  destruct (decide _) as [_ | Hout]; [reflexivity | lia].
Qed.

Lemma start_unfold profile_name g :
  well_formed (game.board g) ->
  game.start profile_name g = game._spawn_next_piece (restarted profile_name g).
Proof.
  intros Hwf. unfold game.start, bind, zoom, restarted, scores.truthy.
  rewrite (reset_run _ Hwf). simpl.
  destruct profile_name as [name |]; simpl; [| reflexivity].
  destruct (bool_decide (name = "")); reflexivity.
Qed.

Lemma start_kept profile_name g r g' :
  sound g -> game.start profile_name g = (r, g') -> kept g g'.
Proof.
  intros [Hwf Hplaced] Hrun. rewrite (start_unfold _ _ Hwf) in Hrun.
  apply spawn_kept in Hrun.
  - destruct Hrun as (Hs & Hw & Hh). split; [exact Hs |]. exact (conj Hw Hh).
  - split; [apply (new_of_well_formed _ Hwf) |].
    intros piece Hact. simpl in Hact. destruct (Hplaced piece Hact) as (cells & Hcells & Hplace).
    exists cells. split; [exact Hcells |]. simpl. apply can_place_on_empty; assumption.
Qed.

Lemma finalize_kept now g r g' :
  sound g -> game.finalize now g = (r, g') -> kept g g'.
Proof.
  intros Hsound. unfold game.finalize, bind, get, game.try_except, zoom. simpl.
  destruct (game.game_over g || negb (bool_decide (is_Some (game.active g))));
    [| intros H; inversion H; subst; apply kept_refl; exact Hsound].
  destruct (scores.finalize now (game.score_manager g)) as [[snapshot | e] sm]; simpl.
  - intros H; inversion H; subst.
    apply kept_same_piece; [reflexivity | reflexivity | exact Hsound].
  - destruct (game.is_RuntimeError e); intros H; inversion H; subst;
      (apply kept_same_piece; [reflexivity | reflexivity | exact Hsound]).
Qed.

Lemma run_op_kept o g g' : sound g -> run_op o g g' -> kept g g'.
Proof.
  intros Hsound. destruct o; simpl.
  - intros [r Hrun]. eapply start_kept; eassumption.
  - intros [r Hrun]. eapply move_kept; eassumption.
  - intros [r Hrun]. eapply rotate_kept; eassumption.
  - intros [r Hrun]. eapply tick_kept; eassumption.
  - intros (fuel & r & Hrun). eapply hard_drop_kept; eassumption.
  - intros [r Hrun]. eapply lock_piece_kept; eassumption.
  - intros [r Hrun]. eapply finalize_kept; eassumption.
Qed.

(** X22: in every state reached from a game created on a well-formed
    board by calls of the public operations, whether they return or
    raise, the board is well formed with the width and height it was
    created with, and the active piece, if there is one, lies on cells
    the board accepts. *)
Theorem board_stays_sound (b : board.Board) (sm : scores.ScoreManager)
    (piece_sequence : option (list tetromino.Tetromino)) (rng : game.Random)
    (g : game.Game) :
  well_formed b ->
  played_from (game.new b sm piece_sequence rng) g ->
  well_formed (game.board g) /\
  board.width (game.board g) = board.width b /\
  board.height (game.board g) = board.height b /\
  placed g.
Proof.
  intros Hwf Hplayed.
  assert (Hkept : kept (game.new b sm piece_sequence rng) g).
  { induction Hplayed as [| g o g' _ IH Hrun].
    - apply kept_refl. split; [exact Hwf |]. intros piece Hact. discriminate.
    - eapply kept_trans; [exact IH |]. eapply run_op_kept; [apply IH | exact Hrun]. }
  destruct Hkept as ([Hwf' Hplaced] & Hw & Hh). auto.
Qed.

Lemma board_stays_sound_witness :
  well_formed (game.board played_out_game) /\
  board.width (game.board played_out_game) = 10 /\
  board.height (game.board played_out_game) = 20.
Proof.
  edestruct (board_stays_sound (board.new 10 20) (scores.new (profiles.new None))
               (Some [tetromino.O; tetromino.I]) identity_rng played_out_game)
    as (Hwf & Hw & Hh & _).
  - apply new_well_formed; lia.
  - eapply (played_more _ _ HardDrop).
    + eapply (played_more _ _ HardDrop).
      * eapply (played_more _ _ (Start None)); [apply played_none |].
        exists (Ok tt). vm_compute; reflexivity.
      * exists 30%nat, (Ok tt). vm_compute; reflexivity.
    + exists 30%nat, (Ok tt). vm_compute; reflexivity.
  - split; [exact Hwf | split; [exact Hw | exact Hh]].
Defined.

(** *** No operation raises in a sound game with a usable supply *)


Lemma catalog_usable : Forall usable tetromino.ALL_TETROMINOES.
Proof.
  repeat constructor; try discriminate.
Qed.


















(** *** The piece supply *)





Lemma set_bag_same g : game.set_bag (game._bag g) g = g.
Proof. destruct g; reflexivity. Qed.

Lemma draw_from_filled_bag g shape rest :
  game._bag g = shape :: rest ->
  game._draw_from_bag g = (Ok shape, game.set_bag rest g).
Proof.
  intros Hbag. unfold game._draw_from_bag, bind, get, zoom. simpl. rewrite Hbag. simpl.
  rewrite Hbag. reflexivity.
Qed.

Lemma draw_many_bag l :
  forall g, game._bag g = l -> draw_many (length l) g = (Ok l, game.set_bag [] g).
Proof.
  induction l as [| shape rest IH]; intros g Hbag.
  - simpl. rewrite <- Hbag, set_bag_same. reflexivity.
  - cbn [length draw_many]. unfold bind.
    rewrite (draw_from_filled_bag g shape rest Hbag).
    rewrite (IH (game.set_bag rest g)) by reflexivity. reflexivity.
Qed.

(** X25: drawing from an empty bag refills it with the catalog as the
    generator shuffles it and consumes one call of the generator; when
    the generator returns a permutation of the catalog, the next seven
    draws are that permutation in its order, so that each of the seven
    shapes comes exactly once, and they leave the bag empty again and
    the board, the score state and the active piece as they were. *)
Theorem bag_window (g : game.Game) :
  game._bag g = [] ->
  Permutation
    (game.oracle (game._rng g) (game.calls (game._rng g)) tetromino.ALL_TETROMINOES)
    tetromino.ALL_TETROMINOES ->
  exists drawn g',
    draw_many 7 g = (Ok drawn, g') /\
    drawn = game.oracle (game._rng g) (game.calls (game._rng g)) tetromino.ALL_TETROMINOES /\
    Permutation drawn tetromino.ALL_TETROMINOES /\
    game._bag g' = [] /\
    game.calls (game._rng g') = Datatypes.S (game.calls (game._rng g)) /\
    same_core g g'.
Proof.
  intros Hbag Hperm.
  pose proof (Permutation_length Hperm) as Hlen. simpl in Hlen.
  destruct (game.oracle (game._rng g) (game.calls (game._rng g)) tetromino.ALL_TETROMINOES)
    as [| shape rest] eqn:Horacle; [discriminate |].
  assert (Hfirst : game._draw_from_bag g
                   = (Ok shape,
                      game.set_bag rest
                        (game.set_rng
                           (game.mkRandom (game.oracle (game._rng g))
                              (Datatypes.S (game.calls (game._rng g)))) g))).
  { unfold game._draw_from_bag, bind, get, modify, zoom. simpl. rewrite Hbag. simpl.
    rewrite Horacle. reflexivity. }
  assert (Hseven : (7 = Datatypes.S (length rest))%nat) by (simpl in Hlen; lia).
  rewrite Hseven. cbn [draw_many]. unfold bind. rewrite Hfirst.
  rewrite (draw_many_bag rest) by reflexivity.
  eexists _, _. split; [reflexivity |]. split; [reflexivity |].
  split; [exact Hperm |]. simpl. repeat split.
Qed.

Lemma bag_window_witness :
  exists g',
    draw_many 7 bag_game = (Ok (rev tetromino.ALL_TETROMINOES), g') /\ game._bag g' = [].
Proof.
  destruct (bag_window bag_game) as (drawn & g' & Hrun & -> & _ & Hbag & _).
  - reflexivity.
  - change (Permutation (rev tetromino.ALL_TETROMINOES) tetromino.ALL_TETROMINOES).
    symmetry. apply Permutation_rev.
  - exists g'. split; [exact Hrun | exact Hbag].
Defined.

(** *** Finalizing, starting and displaying *)

Lemma game_finalize_unfold now g :
  game.finalize now g =
  if game.game_over g || negb (bool_decide (is_Some (game.active g))) then
    match scores.finalize now (game.score_manager g) with
    | (Ok _, sm) => (Ok tt, game.set_score_manager sm g)
    | (Raise e, sm) =>
        if game.is_RuntimeError e then (Ok tt, game.set_score_manager sm g)
        else (Raise e, game.set_score_manager sm g)
    end
  else (Ok tt, g).
Proof.
  unfold game.finalize, bind, get, game.try_except, zoom. simpl.
  destruct (game.game_over g || negb (bool_decide (is_Some (game.active g))));
    [| reflexivity].
  destruct (scores.finalize now (game.score_manager g)) as [[snapshot | e] sm]; simpl;
    [reflexivity |].
  destruct (game.is_RuntimeError e); reflexivity.
Qed.

Lemma set_score_manager_same g : game.set_score_manager (game.score_manager g) g = g.
Proof. destruct g; reflexivity. Qed.

(** X26: [Game.finalize] does nothing while a piece is active and the
    game is not over.  Otherwise it finalizes the score manager: with no
    profile attached the [RuntimeError] is swallowed and nothing changes;
    with an attached profile the store does not know, the [ValueError]
    is not swallowed: it is raised, and nothing has changed; with a known
    profile the call returns and the game differs only in the store,
    which has recorded one more game with the score and the lines. *)
Theorem game_finalize_spec (now : string) (g g' : game.Game) (r : result unit) :
  game.finalize now g = (r, g') ->
  (is_Some (game.active g) -> game.game_over g = false -> r = Ok tt /\ g' = g) /\
  (game.game_over g = true \/ game.active g = None ->
   (scores.truthy (scores.active_profile (game.score_manager g)) = false ->
    r = Ok tt /\ g' = g) /\
   (forall name,
      scores.active_profile (game.score_manager g) = Some name -> name <> "" ->
      (profiles.get_profile (scores.profile_manager (game.score_manager g)) name = None ->
       r = Raise (ValueError ("Profil inconnu: " +:+ name)) /\ g' = g) /\
      (is_Some (profiles.get_profile (scores.profile_manager (game.score_manager g)) name) ->
       r = Ok tt /\
       exists pm',
         profiles.record_game name (scores.score (game.score_manager g))
           (scores.total_lines (game.score_manager g)) now
           (scores.profile_manager (game.score_manager g)) = (Ok tt, pm') /\
         g' = game.set_score_manager
                (scores.set_profile_manager pm' (game.score_manager g)) g /\
         recorded pm'
         = recorded (scores.profile_manager (game.score_manager g))
           ++ [profiles.mkScoreEntry name (scores.score (game.score_manager g))
                 (scores.total_lines (game.score_manager g)) (Some now)]))).
Proof.
  rewrite game_finalize_unfold. intros Hrun. split.
  - intros [piece Hact] Hover. rewrite Hact, Hover in Hrun.
    rewrite bool_decide_eq_true_2 in Hrun by eauto. simpl in Hrun.
    inversion Hrun; auto.
  - intros Hdone.
    assert (Hcond : game.game_over g || negb (bool_decide (is_Some (game.active g))) = true).
    { destruct Hdone as [-> | ->]; [reflexivity |].
      rewrite bool_decide_eq_false_2 by (intros [p Hp]; discriminate).
      apply orb_true_r. }
    rewrite Hcond, finalize_unfold in Hrun. split.
    + intros Hfalsy. unfold scores.truthy in Hfalsy.
      destruct (scores.active_profile (game.score_manager g)) as [name |].
      * destruct (bool_decide (name = "")); [| discriminate].
        simpl in Hrun. rewrite set_score_manager_same in Hrun. inversion Hrun; auto.
      * simpl in Hrun. rewrite set_score_manager_same in Hrun. inversion Hrun; auto.
    + intros name Hattached Hname. rewrite Hattached in Hrun.
      rewrite bool_decide_eq_false_2 in Hrun by exact Hname. split.
      * intros Hget. rewrite (record_game_unknown _ _ _ _ _ Hget) in Hrun.
        simpl in Hrun. rewrite set_profile_manager_same, set_score_manager_same in Hrun.
        inversion Hrun; auto.
      * intros [p Hget]. rewrite (record_game_known _ _ _ _ _ _ Hget) in Hrun |- *.
        inversion Hrun; subst; clear Hrun.
        split; [reflexivity |]. eexists. split; [reflexivity |]. split; reflexivity.
Qed.

Lemma game_finalize_spec_witness :
  exists g',
    game.finalize "2024-01-05T00:00:00Z" finished_game = (Ok tt, g') /\
    length (recorded (scores.profile_manager (game.score_manager g'))) = 4%nat.
Proof.
  destruct (game.finalize "2024-01-05T00:00:00Z" finished_game) as [r g'] eqn:Hrun.
  destruct (proj2 (game_finalize_spec _ _ _ _ Hrun)) as [_ Hattached].
  - left. vm_compute; reflexivity.
  - destruct (Hattached "Alice") as [_ Hknown].
    + vm_compute; reflexivity.
    + discriminate.
    + destruct Hknown as (-> & pm' & _ & -> & Hrec).
      * vm_compute. eauto.
      * eexists. split; [reflexivity |]. simpl. rewrite Hrec.
        vm_compute; reflexivity.
Defined.

Lemma rotated_zero_index shape st :
  tetromino.rotated shape 0 = Ok st ->
  tetromino.tetromino st = shape /\ tetromino.rotation_index st = 0.
Proof.
  unfold tetromino.rotated.
  destruct (Z.eqb_spec (Z.of_nat (length (tetromino.rotations shape))) 0) as [Hz | Hnz];
    [discriminate |].
  intros H; inversion H; subst; simpl. split; [reflexivity |].
  apply Z.mod_0_l. exact Hnz.
Qed.

(** X27: on a well-formed board, however the previous game stood,
    [start] spawns on an emptied board of the same dimensions with a
    score manager reset to zero and attached to the profile name when it
    is given and not empty, and these are the board and the score
    manager it leaves.  It ends in one of three ways: with a piece in
    rotation state 0 at origin [(width // 2, 0)] and the game not over;
    with no piece and the game over; or with an exception of the draw or
    of the shape, the game not over and the active piece as before. *)
Theorem start_restarts (profile_name : option string) (g g' : game.Game) (r : result unit) :
  well_formed (game.board g) ->
  game.start profile_name g = (r, g') ->
  game.board g' = board.new (board.width (game.board g)) (board.height (game.board g)) /\
  game.score_manager g'
  = scores.mkScoreManager (scores.profile_manager (game.score_manager g)) 0 0 0
      (if scores.truthy profile_name then profile_name else None) /\
  ((r = Ok tt /\ game.game_over g' = false /\
    exists piece,
      game.active g' = Some piece /\
      game.origin piece = (board.width (game.board g) / 2, 0) /\
      tetromino.rotation_index (game.state piece) = 0) \/
   (r = Ok tt /\ game.game_over g' = true /\ game.active g' = None) \/
   (exists e, r = Raise e /\ game.game_over g' = false /\ game.active g' = game.active g)).
Proof.
  intros Hwf Hrun. rewrite (start_unfold _ _ Hwf) in Hrun.
  pose proof (spawn_cases _ _ _ Hrun) as (Hboard & Hsm & _).
  split; [exact Hboard | split; [exact Hsm |]].
  rewrite spawn_unfold in Hrun.
  destruct (game._next_tetromino (restarted profile_name g)) as [[shape | e] g1] eqn:Hdraw;
    apply next_tetromino_same_core in Hdraw as (Hb & _ & Ha & Ho); simpl in Hb, Ha, Ho.
  - destruct (tetromino.rotated shape 0) as [st | e] eqn:Hrot;
      [| inversion Hrun; subst; right; right; eauto].
    destruct (game.blocks (spawned g1 st)) as [cells | e];
      [| inversion Hrun; subst; right; right; eauto].
    destruct (board.can_place (game.board g1) cells) as [[|] | e];
      inversion Hrun; subst; clear Hrun.
    + left. split; [reflexivity | split; [exact Ho |]].
      eexists. split; [reflexivity |]. simpl. rewrite Hb. simpl.
      split; [reflexivity |]. apply (rotated_zero_index shape). exact Hrot.
    + right; left. auto.
    + right; right. eauto.
  - destruct (game.is_StopIteration e); inversion Hrun; subst; clear Hrun.
    + right; left. auto.
    + right; right. eauto.
Qed.

Lemma start_restarts_witness :
  game.board (snd (game.start None played_out_game)) = board.new 10 20 /\
  scores.score (game.score_manager (snd (game.start None played_out_game))) = 0.
Proof.
  destruct (game.start None played_out_game) as [r g'] eqn:Hrun.
  destruct (start_restarts None played_out_game g' r) as (Hboard & Hsm & _).
  - split; [reflexivity | vm_compute; repeat constructor].
  - exact Hrun.
  - simpl. rewrite Hboard, Hsm. split; reflexivity.
Defined.

Lemma set_cell_run x y v b :
  board.set_cell x y v b =
  match (let? row := getitem (board.grid b) y in
         let? row' := setitem row x v in
         setitem (board.grid b) y row') with
  | Ok grid' => (Ok tt, board.set_grid grid' b)
  | Raise e => (Raise e, b)
  end.
Proof.
  unfold board.set_cell, bind, get, lift, modify. simpl.
  destruct (getitem (board.grid b) y) as [row | e]; [| reflexivity]. simpl.
  destruct (setitem row x v) as [row' | e]; [| reflexivity]. simpl.
  destruct (setitem (board.grid b) y row') as [grid' | e]; reflexivity.
Qed.

Lemma can_place_bounds b cells :
  board.can_place b cells = Ok true ->
  Forall (fun c => 0 <= fst c < board.width b /\ snd c < board.height b) cells.
Proof.
  induction cells as [| [x y] rest IH]; intros Hplace; [constructor |].
  apply can_place_head in Hplace as (Hx & Hy & Hrest).
  constructor; [simpl; lia | auto].
Qed.

Lemma overlay_as_lock g name cells :
  forall b b',
    board.width b = board.width (game.board g) ->
    board.height b = board.height (game.board g) ->
    Forall (fun c => 0 <= fst c < board.width b /\ snd c < board.height b) cells ->
    for_each cells (write_cell (Some name)) b = (Ok tt, b') ->
    fold_result (game.overlay g name) cells (board.grid b) = Ok (board.grid b').
Proof.
  induction cells as [| [x y] rest IH]; intros b b' Hw Hh Hall Hrun.
  - simpl in Hrun. inversion Hrun; subst. reflexivity.
  - apply Forall_cons in Hall as [[Hx Hy] Hall]. simpl in Hx, Hy.
    cbn [for_each] in Hrun. unfold bind in Hrun. cbn [fold_result game.overlay].
    unfold write_cell in Hrun at 1.
    destruct (Z.ltb_spec y 0) as [Hneg | Hpos].
    + simpl in Hrun.
      destruct (Z.leb_spec 0 y) as [Hbad | _]; [lia |]. simpl.
      apply IH; assumption.
    + rewrite set_cell_run in Hrun.
      destruct (Z.leb_spec 0 y) as [_ | Hbad]; [| lia].
      destruct (Z.ltb_spec y (board.height (game.board g))) as [_ | Hbad]; [| lia].
      destruct (Z.leb_spec 0 x) as [_ | Hbad]; [| lia].
      destruct (Z.ltb_spec x (board.width (game.board g))) as [_ | Hbad]; [| lia].
      cbn [andb].
      destruct (let? row := getitem (board.grid b) y in
                let? row' := setitem row x (Some name) in
                setitem (board.grid b) y row') as [grid' | e]; [| discriminate].
      cbn [and_then].
      apply (IH (board.set_grid grid' b)); [exact Hw | exact Hh | exact Hall | exact Hrun].
Qed.

(** X28: [current_board] returns the grid itself when no piece is
    active; for the active piece of a sound game it returns, without
    raising and without changing the game, the grid that locking the
    piece would write: the cells of the piece that are in the grid show
    the name of its shape, its cells above the top are left out, and
    every other cell shows what the board holds. *)
Theorem current_board_shows (g : game.Game) :
  (game.active g = None -> game.current_board g = Ok (board.grid (game.board g))) /\
  (forall piece,
     game.active g = Some piece -> sound g ->
     exists cells b',
       game.blocks piece = Ok cells /\
       board.lock_piece cells (tetromino.name (tetromino.tetromino (game.state piece)))
         (game.board g) = (Ok tt, b') /\
       game.current_board g = Ok (board.grid b') /\
       forall x y,
         cell b' x y
         = if decide ((x, y) ∈ cells /\ 0 <= y)
           then Some (Some (tetromino.name (tetromino.tetromino (game.state piece))))
           else cell (game.board g) x y).
Proof.
  split.
  - intros Hact. unfold game.current_board. rewrite Hact. reflexivity.
  - intros piece Hact [Hwf Hplaced].
    destruct (Hplaced piece Hact) as (cells & Hcells & Hplace).
    destruct (write_cells_spec
                (Some (tetromino.name (tetromino.tetromino (game.state piece))))
                cells (game.board g) Hwf (can_place_lockable _ _ Hplace))
      as (b' & Hlock & _ & _ & _ & Hcell).
    exists cells, b'. split; [exact Hcells | split; [exact Hlock | split; [| exact Hcell]]].
    unfold game.current_board. rewrite Hact, Hcells. cbn [and_then].
    apply overlay_as_lock;
      [reflexivity | reflexivity | apply can_place_bounds; exact Hplace | exact Hlock].
Qed.

Lemma current_board_shows_witness :
  exists cells b',
    game.blocks (game.mkActivePiece (tetromino.mkTetrominoState tetromino.O 0) (5, 0))
    = Ok cells /\
    board.lock_piece cells "O" (game.board started_game) = (Ok tt, b') /\
    game.current_board started_game = Ok (board.grid b') /\
    forall x y,
      cell b' x y
      = if decide ((x, y) ∈ cells /\ 0 <= y)
        then Some (Some "O")
        else cell (game.board started_game) x y.
Proof.
  apply (proj2 (current_board_shows started_game)
           (game.mkActivePiece (tetromino.mkTetrominoState tetromino.O 0) (5, 0))).
  - vm_compute; reflexivity.
  - split.
    + split; [vm_compute; reflexivity |].
      vm_compute. repeat constructor.
    + intros piece Hact. vm_compute in Hact. inversion Hact; subst piece.
      eexists. split; vm_compute; reflexivity.
Defined.

Example current_board_started :
  match game.current_board started_game with
  | Ok grid => grid !! 0%nat
  | Raise _ => None
  end
  = Some [None; None; None; None; None; Some "O"; Some "O"; None; None; None].
Proof. vm_compute; reflexivity. Qed.
